(** * The interrupt monitor of procfs: [sched/irq/irq_procfs.c]

    A shallow embedding of the read-only pseudo-file that reports, for
    every attached interrupt, its handler, the number of interrupts taken
    since the previous report, the interrupt rate and the service time.

    The embedding follows the C file function by function:
    [irq_callback], [irq_open], [irq_close], [irq_read] and [irq_dup].
    Machine integers are integers of [Z] with their wrap-around written
    out; the allocator, the interrupt table and its traversal, the tick
    counter and [procfs_memcpy] belong to other parts of the kernel and are
    modelled next to the code that calls them. *)

From Stdlib Require Import ZArith Lia List Ascii String.
From stdpp Require Import base option list gmap.

Open Scope Z_scope.

(** ** Integer types of the target

    The boards of this repository are STM32 (ARM, ILP32): [unsigned int],
    [unsigned long], [size_t] and pointers are 32 bits wide, [ssize_t] and
    [off_t] are signed 32-bit integers, [uint64_t] has 64 bits. *)

Module ILP32.

Definition uint (x : Z) : Z := x mod 2 ^ 32.
Definition ulong (x : Z) : Z := x mod 2 ^ 32.
Definition uint64_t (x : Z) : Z := x mod 2 ^ 64.
Definition size_t (x : Z) : Z := x mod 2 ^ 32.

(** Conversion to a signed 32-bit integer (two's complement). *)
Definition int32 (x : Z) : Z := (x + 2 ^ 31) mod 2 ^ 32 - 2 ^ 31.
Definition ssize_t (x : Z) : Z := int32 x.
Definition off_t (x : Z) : Z := int32 x.

Definition ULONG_MAX : Z := 2 ^ 32 - 1.
Definition SSIZE_MAX : Z := 2 ^ 31 - 1.
Definition OFF_MAX : Z := 2 ^ 31 - 1.

End ILP32.
Export ILP32.

(** ** What the configuration and the architecture provide

    [TICK_PER_SEC] and the width of [clock_t] come from the kernel
    configuration, the access-mode bits from [fcntl.h], and
    [up_perf_convert] from the architecture; none of them is defined in
    [irq_procfs.c], so the development is parametric in them. *)

Record timespec := { tv_sec : Z; tv_nsec : Z }.

Class Target := {
  TICK_PER_SEC : Z;
  SYSTEM_TIME64 : bool;
  up_perf_convert : Z -> timespec;
  O_RDONLY : Z;
  O_WRONLY : Z
}.

(** [clock_t] is [uint32_t], or [uint64_t] with [CONFIG_SYSTEM_TIME64]. *)
Definition clock_t `{Target} (x : Z) : Z :=
  x mod (if SYSTEM_TIME64 then 2 ^ 64 else 2 ^ 32).

(** ** Text: the [printf] conversions used by the two formats *)

Definition NUL : ascii := Ascii.zero.
Definition newline : ascii := "010"%char.

Definition digit_char (d : Z) : ascii :=
  nth (Z.to_nat d) (list_ascii_of_string "0123456789abcdef") "0"%char.

(** The digits of [n] in base [radix], most significant first.  The fuel
    is the number of bits of [n], which bounds its number of digits in
    every base from 2 on. *)
Fixpoint digits_from (fuel : nat) (radix n : Z) (acc : list ascii) : list ascii :=
  match fuel with
  | O => acc
  | S fuel' =>
      let acc' := digit_char (n mod radix) :: acc in
      if n / radix =? 0 then acc' else digits_from fuel' radix (n / radix) acc'
  end.

Definition digits (radix n : Z) : list ascii :=
  digits_from (S (Z.to_nat (Z.log2 n))) radix n [].

(** Right alignment in a field of [width] characters; a longer text is
    never cut. *)
Definition pad_left (fill : ascii) (width : nat) (s : list ascii) : list ascii :=
  replicate (width - length s)%nat fill ++ s.

(** [%<w>u] and [%<w>lu], [%0<w>lu], [%0<w>lx]. *)
Definition fmt_u (width : nat) (n : Z) : list ascii := pad_left " "%char width (digits 10 n).
Definition fmt_0u (width : nat) (n : Z) : list ascii := pad_left "0"%char width (digits 10 n).
Definition fmt_0x (width : nat) (n : Z) : list ascii := pad_left "0"%char width (digits 16 n).

(** [#define HDR_FMT "IRQ HANDLER  ARGUMENT    COUNT    RATE    TIME\n"] *)
Definition HDR_FMT : list ascii :=
  list_ascii_of_string "IRQ HANDLER  ARGUMENT    COUNT    RATE    TIME" ++ [newline].

(** [#define IRQ_FMT "%3u %08lx %08lx %10lu %4lu.%03lu %4lu\n"] *)
Definition IRQ_FMT (irq handler arg count intpart fracpart usec : Z) : list ascii :=
  fmt_u 3 irq ++ " "%char ::
  fmt_0x 8 handler ++ " "%char ::
  fmt_0x 8 arg ++ " "%char ::
  fmt_u 10 count ++ " "%char ::
  fmt_u 4 intpart ++ "."%char ::
  fmt_0u 3 fracpart ++ " "%char ::
  fmt_u 4 usec ++ [newline].

Definition IRQ_LINELEN : Z := 50.

(** [snprintf(buf, size, ...)] for [1 <= size]: at most [size - 1]
    characters of the formatted [text] are stored, followed by a NUL; the
    rest of [buf] keeps its content.  The value returned is the length of
    the whole [text], also when it was cut. *)
Definition snprintf (buf : list ascii) (size : Z) (text : list ascii) : Z * list ascii :=
  let kept := take (Z.to_nat (size - 1)) text in
  (Z.of_nat (length text), kept ++ NUL :: drop (S (length kept)) buf).

(** ** Data *)

(** [struct irq_info_s]: one entry of the interrupt table. *)
Record irq_info_s := {
  handler : Z;   (* address of the interrupt handler *)
  arg : Z;       (* argument passed to the handler *)
  start : Z;     (* clock_t: when the counts were last reset *)
  count : Z;     (* uint64_t: interrupts since then *)
  time : Z       (* execution time, in units of the performance counter *)
}.

(** [struct irq_file_s]: one open file.  [buffer] points into the
    caller's buffer; it is represented by the bytes stored through it
    since [irq_read] bound it, so that [buffer += copysize] after a
    [memcpy] of [copysize] bytes is an append. *)
Record irq_file_s := {
  base : Z;
  buffer : list ascii;
  remaining : Z;
  ncopied : Z;
  offset : Z;
  line : list ascii
}.

(** [struct file], the two members this driver uses. *)
Record file := { f_pos : Z; f_priv : option positive }.

(** The interrupt table, in the order of traversal: interrupt number and
    entry. *)
Abbreviation irqvector := (list (Z * irq_info_s)).

(** The tick counter, as the sequence of the values it shows each time it
    is sampled, and the number of samples taken so far. *)
Record sysclock := { ticks : nat -> Z; nsampled : nat }.

Record World := { g_irqvector : irqvector; g_clock : sysclock }.

(** ** The kernel services used by the driver *)

(** Modelled from the spec: [clock_systime_ticks] is the external tick
    source ("now"); each call samples the counter once. *)
Definition clock_systime_ticks `{Target} (c : sysclock) : Z * sysclock :=
  (clock_t (ticks c (nsampled c)), {| ticks := ticks c; nsampled := S (nsampled c) |}).

(** Modelled from the spec: [procfs_memcpy], the skip/copy primitive of
    procfs, is not in this file.  A line of length [srclen] that lies
    wholly before [offset] is discarded and [offset] decreases by
    [srclen]; otherwise the tail of the line from [offset] on is copied,
    bounded by the room [destlen], and [offset] becomes 0.  Returns the
    number of bytes copied, the destination and the new offset.  Bytes
    beyond the end of [src] do not exist in the model (in C they are
    outside the array). *)
Definition procfs_memcpy (src : list ascii) (srclen : Z) (dest : list ascii)
    (destlen : Z) (offset : Z) : Z * list ascii * Z :=
  if srclen <=? offset then (0, dest, offset - srclen)
  else
    let copysize := Z.min (srclen - offset) destlen in
    (copysize, dest ++ take (Z.to_nat copysize) (drop (Z.to_nat offset) src), 0).

(** Modelled from the spec: [irq_foreach] is the traversal of the
    registry, [forEach(visit: (id, recordRef) -> {continue | stop})]: it
    visits the entries in order, on the calling thread, and stops at the
    first visit that returns a non-zero value, which it returns.  The
    state [St] stands for what the callback reaches through [arg] and the
    globals. *)
Fixpoint irq_foreach {St : Type} (callback : Z -> irq_info_s -> St -> Z * irq_info_s * St)
    (vec : irqvector) (s : St) : Z * irqvector * St :=
  match vec with
  | [] => (0, [], s)
  | (irq, info) :: rest =>
      let '(ret, info', s') := callback irq info s in
      if ret =? 0 then
        let '(ret', rest', s'') := irq_foreach callback rest s' in
        (ret', (irq, info') :: rest', s'')
      else (ret, (irq, info') :: rest, s')
  end.

(** Modelled from the spec: the kernel allocator ([kmm_zalloc],
    [kmm_malloc], [kmm_free]) is not in this file.  The heap holds the
    sessions by address; an allocation fails when no block is left and
    otherwise returns an address not in use.  [kmm_zalloc] clears the new
    block, [kmm_malloc] leaves in it whatever that memory held
    ([stale]). *)
Record heap := {
  blocks : gmap positive irq_file_s;
  nfree : nat;
  stale : irq_file_s
}.

(** A store through a pointer to a session. *)
Definition kmm_store (p : positive) (s : irq_file_s) (h : heap) : heap :=
  {| blocks := <[p := s]> (blocks h); nfree := nfree h; stale := stale h |}.

(** A [struct irq_file_s] of zero bytes. *)
Definition zeroed : irq_file_s :=
  {| base := 0; buffer := []; remaining := 0; ncopied := 0; offset := 0;
     line := replicate (Z.to_nat IRQ_LINELEN) NUL |}.

(** Modelled from the spec: an allocation, [None] for the NULL of a
    failure; [init] is the content of the new block. *)
Definition kmm_alloc (init : irq_file_s) (h : heap) : option (positive * heap) :=
  match nfree h with
  | O => None
  | S n =>
      let p := fresh (dom (blocks h)) in
      Some (p, {| blocks := <[p := init]> (blocks h); nfree := n; stale := stale h |})
  end.

(** Modelled from the spec: [kmm_zalloc], whose block is all zero. *)
Definition kmm_zalloc (h : heap) : option (positive * heap) := kmm_alloc zeroed h.

(** Modelled from the spec: [kmm_malloc], whose block is not initialised. *)
Definition kmm_malloc (h : heap) : option (positive * heap) := kmm_alloc (stale h) h.

(** Modelled from the spec: [kmm_free]. *)
Definition kmm_free (p : positive) (h : heap) : heap :=
  {| blocks := delete p (blocks h); nfree := S (nfree h); stale := stale h |}.

(** Results of the file operations: [OK], or the negated [errno] value. *)
Inductive errno := EACCES | ENOMEM.
Inductive status := OK | Failed (e : errno).

(** ** The driver *)

Section Driver.

Context `{Target}.

(** Lines 160-171, the critical section of [irq_callback]: the entry that
    is left behind when the snapshot [copy] has been taken. *)
Definition irq_reset (now : Z) (info : irq_info_s) : irq_info_s :=
  {| handler := handler info; arg := arg info; start := now; count := 0; time := 0 |}.

(** Lines 203 and 211:
    [elapsed = now - copy.start; elapsed = elapsed ? elapsed : 1;] *)
Definition irq_elapsed (now : Z) (copy : irq_info_s) : Z :=
  let elapsed := clock_t (now - start copy) in
  if elapsed =? 0 then 1 else elapsed.

(** Lines 212-223: the integer and the fractional part of the rate.  The
    product and the subtraction are computed in [uint64_t], the two
    quotients are converted to [unsigned int]. *)
Definition irq_rate (copy : irq_info_s) (elapsed : Z) : Z * Z :=
  let intpart := uint (uint64_t (count copy * TICK_PER_SEC) / elapsed) in
  if 10000 <=? intpart then (9999, 999)
  else
    let intcount := uint64_t (intpart * elapsed) in
    (intpart,
     uint (uint64_t (uint64_t (uint64_t (count copy * TICK_PER_SEC) - intcount) * 1000)
           / elapsed)).

(** Lines 227-234: the count as [snprintf] can show it. *)
Definition irq_count (copy : irq_info_s) : Z :=
  if ULONG_MAX <? count copy then ULONG_MAX else ulong (count copy).

(** Lines 204 and 241-246: the text that [snprintf] formats for one
    snapshot. *)
Definition irq_line (irq : Z) (copy : irq_info_s) (now : Z) : list ascii :=
  let elapsed := irq_elapsed now copy in
  let delta := up_perf_convert (time copy) in
  let '(intpart, fracpart) := irq_rate copy elapsed in
  IRQ_FMT (uint irq) (ulong (handler copy)) (ulong (arg copy))
          (irq_count copy) intpart fracpart (ulong (tv_nsec delta) / 1000).

(** [irq_callback] (lines 141-267): what [irq_foreach] calls on every
    entry.  The state is the open file reached through [arg] and the tick
    counter; the result is the value returned, the entry and the state. *)
Definition irq_callback (irq : Z) (info : irq_info_s) (s : irq_file_s * sysclock)
    : Z * irq_info_s * (irq_file_s * sysclock) :=
  let '(irqfile, clk) := s in
  (* Take a snapshot and reset the counts *)
  let copy := info in
  let '(now, clk) := clock_systime_ticks clk in
  let info := irq_reset now info in
  (* Don't bother if count == 0 *)
  if count copy =? 0 then (0, info, (irqfile, clk))
  else
    (* Output information about this interrupt *)
    let '(linesize, line') := snprintf (line irqfile) IRQ_LINELEN (irq_line irq copy now) in
    let '(copysize, buffer', offset') :=
      procfs_memcpy line' linesize (buffer irqfile) (remaining irqfile) (offset irqfile) in
    let irqfile :=
      {| base := base irqfile;
         buffer := buffer';
         remaining := size_t (remaining irqfile - copysize);
         ncopied := size_t (ncopied irqfile + copysize);
         offset := offset';
         line := line' |} in
    (* Return a non-zero value to stop the traversal if the user-provided
       buffer is full. *)
    if 0 <? remaining irqfile then (0, info, (irqfile, clk))
    else (1, info, (irqfile, clk)).

(** [irq_open] (lines 273-303) *)
Definition irq_open (h : heap) (filep : file) (oflags : Z) : status * heap * file :=
  if negb (Z.land oflags O_WRONLY =? 0) || (Z.land oflags O_RDONLY =? 0)
  then (Failed EACCES, h, filep)
  else
    match kmm_zalloc h with
    | None => (Failed ENOMEM, h, filep)
    | Some (irqfile, h') => (OK, h', {| f_pos := f_pos filep; f_priv := Some irqfile |})
    end.

(** [irq_close] (lines 309-323); [None] is the failed
    [DEBUGASSERT(irqfile)]. *)
Definition irq_close (h : heap) (filep : file) : option (status * heap * file) :=
  match f_priv filep with
  | None => None
  | Some irqfile => Some (OK, kmm_free irqfile h, {| f_pos := f_pos filep; f_priv := None |})
  end.

(** [irq_read], lines 345-358: the session is bound to the file position
    and to the caller's buffer, and the header goes through the
    skip/copy step. *)
Definition irq_read_header (irqfile : irq_file_s) (f_pos buflen : Z) : irq_file_s :=
  (* Save the file offset and the user buffer information *)
  let irqfile :=
    {| base := base irqfile; buffer := []; remaining := buflen;
       ncopied := ncopied irqfile; offset := f_pos; line := line irqfile |} in
  (* The first line to output is the header *)
  let '(linesize, line') := snprintf (line irqfile) IRQ_LINELEN HDR_FMT in
  let '(copysize, buffer', offset') :=
    procfs_memcpy line' linesize (buffer irqfile) (remaining irqfile) (offset irqfile) in
  {| base := base irqfile;
     buffer := buffer';
     remaining := size_t (remaining irqfile - copysize);
     ncopied := copysize;
     offset := offset';
     line := line' |}.

(** [irq_read] (lines 329-370): the result is the value returned, the
    bytes stored in the caller's buffer, and the heap, the world and the
    file after the call; [None] is the failed [DEBUGASSERT(irqfile)]. *)
Definition irq_read (h : heap) (w : World) (filep : file) (buflen : Z)
    : option (Z * list ascii * heap * World * file) :=
  match f_priv filep with
  | None => None
  | Some p =>
      match blocks h !! p with
      | None => None
      | Some irqfile =>
          let irqfile := irq_read_header irqfile (f_pos filep) buflen in
          (* Now traverse the list of attached interrupts, generating
             output for each. *)
          let '(_, vec', (irqfile, clk')) :=
            irq_foreach irq_callback (g_irqvector w) (irqfile, g_clock w) in
          (* Update the file position *)
          Some (ssize_t (ncopied irqfile),
                buffer irqfile,
                kmm_store p irqfile h,
                {| g_irqvector := vec'; g_clock := clk' |},
                {| f_pos := off_t (f_pos filep + ncopied irqfile);
                   f_priv := f_priv filep |})
      end
  end.

(** [irq_dup] (lines 380-409); [None] is the failed
    [DEBUGASSERT(oldattr)]. *)
Definition irq_dup (h : heap) (oldp newp : file) : option (status * heap * file) :=
  match f_priv oldp with
  | None => None
  | Some p =>
      match blocks h !! p with
      | None => None
      | Some oldattr =>
          match kmm_malloc h with
          | None => Some (Failed ENOMEM, h, newp)
          | Some (newattr, h') =>
              (* memcpy(newattr, oldattr, sizeof(struct irq_file_s)) *)
              Some (OK, kmm_store newattr oldattr h',
                    {| f_pos := f_pos newp; f_priv := Some newattr |})
          end
      end
  end.

End Driver.

(** A target for examples: 100 ticks per second, a 32-bit tick counter, a
    performance counter that runs at 1 MHz, and the access-mode bits of
    NuttX. *)
Definition perf_convert_1MHz (elapsed : Z) : timespec :=
  {| tv_sec := elapsed / 1000000; tv_nsec := (elapsed mod 1000000) * 1000 |}.

Definition stm32 : Target :=
  {| TICK_PER_SEC := 100; SYSTEM_TIME64 := false;
     up_perf_convert := perf_convert_1MHz; O_RDONLY := 1; O_WRONLY := 2 |}.

(** ** The report as a whole

    What a traversal that is never stopped renders: for every entry, in
    order, the tick counter is sampled once and an entry whose count is not
    zero gives its line. *)

Definition slice {A} (off room : Z) (l : list A) : list A :=
  take (Z.to_nat room) (drop (Z.to_nat off) l).

Section Report.

Context `{Target}.

Definition irq_chunk (irq : Z) (copy : irq_info_s) (now : Z) : list ascii :=
  if count copy =? 0 then [] else irq_line irq copy now.

Fixpoint irq_lines (vec : irqvector) (c : sysclock) : list ascii :=
  match vec with
  | [] => []
  | (irq, info) :: rest =>
      let '(now, c') := clock_systime_ticks c in
      irq_chunk irq info now ++ irq_lines rest c'
  end.

Definition report (w : World) : list ascii :=
  HDR_FMT ++ irq_lines (g_irqvector w) (g_clock w).

(** Every line of the report fits the scratch buffer [line] together
    with its terminating NUL. *)
Fixpoint lines_fit (vec : irqvector) (c : sysclock) : bool :=
  match vec with
  | [] => true
  | (irq, info) :: rest =>
      let '(now, c') := clock_systime_ticks c in
      (Z.of_nat (length (irq_chunk irq info now)) <? IRQ_LINELEN) && lines_fit rest c'
  end.

Definition report_fits (w : World) : bool := lines_fit (g_irqvector w) (g_clock w).

(** The entry left behind by the [i]-th visit of a traversal that starts
    with the clock [c]. *)
Definition visited (c : sysclock) (i : nat) (r : Z * irq_info_s) : Z * irq_info_s :=
  (r.1, irq_reset (clock_t (ticks c (nsampled c + i)%nat)) r.2).

(** A session in the course of a read: sizes are in range. *)
Definition running (buflen : Z) (f : irq_file_s) : Prop :=
  0 <= offset f /\ 0 <= remaining f /\ 0 <= ncopied f /\
  ncopied f + remaining f = buflen /\ buflen < 2 ^ 32.

(** Entries in range: the interrupt number has three digits, the product
    count x ticks-per-second is below 2^32, the service time is below
    one second. *)
Definition in_range (r : Z * irq_info_s) : Prop :=
  0 <= r.1 < 1000 /\
  0 <= count r.2 * TICK_PER_SEC < 2 ^ 32 /\
  ulong (tv_nsec (up_perf_convert (time r.2))) < 10 ^ 9.

(** The session after the candidate line [s] went through the skip/copy
    step, [line'] being the new content of the scratch buffer. *)
Definition fed (f : irq_file_s) (s line' : list ascii) : irq_file_s :=
  let piece := slice (offset f) (remaining f) s in
  {| base := base f;
     buffer := buffer f ++ piece;
     remaining := remaining f - Z.of_nat (length piece);
     ncopied := ncopied f + Z.of_nat (length piece);
     offset := offset f - Z.min (offset f) (Z.of_nat (length s));
     line := line' |}.

(** A sequence of reads through one open file.  Between two calls the
    interrupts and the clock go on, so each call comes with the world it
    finds, and with the capacity of its buffer; the heap and the file
    position are those left by the call before.  The result is the
    concatenation of the bytes delivered. *)
Fixpoint read_all (h : heap) (filep : file) (calls : list (World * Z))
    : option (list ascii) :=
  match calls with
  | [] => Some []
  | (w, buflen) :: calls' =>
      match irq_read h w filep buflen with
      | None => None
      | Some (_, out, h', _, filep') =>
          match read_all h' filep' calls' with
          | None => None
          | Some outs => Some (out ++ outs)
          end
      end
  end.

Definition capacity (calls : list (World * Z)) : Z :=
  foldr (fun c acc => c.2 + acc) 0 calls.

(** The interrupts whose snapshot count is not zero, in table order. *)
Definition nonzero_irqs (w : World) : list Z :=
  map fst (List.filter (fun r => negb (count r.2 =? 0)) (g_irqvector w)).

(** The equivalence of one full read and of several small reads, as
    the specification words it: its only condition on the worlds the
    calls find is that the same interrupts have a count that is not
    zero. *)
Definition stated_equivalence (h : heap) (filep : file) (w0 : World) (buflen0 : Z)
    (calls : list (World * Z)) : Prop :=
  Forall (fun c => nonzero_irqs c.1 = nonzero_irqs w0) calls ->
  Z.of_nat (length (report w0)) <= buflen0 ->
  Z.of_nat (length (report w0)) <= capacity calls ->
  exists ret out h' w' filep',
    irq_read h w0 filep buflen0 = Some (ret, out, h', w', filep') /\
    read_all h filep calls = Some out.

(** Two reads in a row, nothing happening in between: the second finds
    the world, the heap and the file position the first has left. *)
Definition read_twice (h : heap) (w : World) (filep : file) (buflen1 buflen2 : Z)
    : option (list ascii) :=
  match irq_read h w filep buflen1 with
  | None => None
  | Some (_, out1, h', w', filep') =>
      match irq_read h' w' filep' buflen2 with
      | None => None
      | Some (_, out2, _, _, _) => Some (out1 ++ out2)
      end
  end.

(** The entry [info] of interrupt 5 is the only one, and a read that
    finds [w] takes from it the snapshot of the scenario: handler
    0x08001000, argument 0, 120 interrupts in a window of one second,
    250 microseconds of service time. *)
Definition snapshot_120 (w : World) (info : irq_info_s) : Prop :=
  g_irqvector w = [(5, info)] /\
  handler info = 0x08001000 /\ arg info = 0 /\ count info = 120 /\
  clock_t (clock_t (ticks (g_clock w) (nsampled (g_clock w))) - start info)
    = TICK_PER_SEC /\
  ulong (tv_nsec (up_perf_convert (time info))) / 1000 = 250.

End Report.

(** ** A concrete scenario

    One attached interrupt, number 5, that was taken 120 times in the
    second before the tick counter shows 1100, and one open file. *)

Definition text (s : string) : list ascii := list_ascii_of_string s.

Definition LINE_120 : list ascii :=
  text "  5 08001000 00000000        120  120.000  250" ++ [newline].

Definition rec5 : irq_info_s :=
  {| handler := 0x08001000; arg := 0; start := 1000; count := 120; time := 250 |}.

Definition w5 : World :=
  {| g_irqvector := [(5, rec5)]; g_clock := {| ticks := fun _ => 1100; nsampled := 0 |} |}.

(** The same table at two times.  The entry was reset at tick 1100 and
    one interrupt has been counted since.  A read at tick 1100 resets the
    entry once more; when another interrupt has been counted the table is
    as it was, and a second read finds it so at tick 1200. *)
Definition rec5_once : irq_info_s :=
  {| handler := 0x08001000; arg := 0; start := 1100; count := 1; time := 250 |}.

Definition w5_once : World :=
  {| g_irqvector := [(5, rec5_once)];
     g_clock := {| ticks := fun _ => 1100; nsampled := 0 |} |}.

Definition w5_once_later : World :=
  {| g_irqvector := [(5, rec5_once)];
     g_clock := {| ticks := fun _ => 1200; nsampled := 1 |} |}.

(** One second after a read of [w5] has reset the entry, with another 120
    interrupts counted. *)
Definition rec5_again : irq_info_s :=
  {| handler := 0x08001000; arg := 0; start := 1100; count := 120; time := 250 |}.

Definition w5_again : World :=
  {| g_irqvector := [(5, rec5_again)];
     g_clock := {| ticks := fun _ => 1200; nsampled := 1 |} |}.

(** 2^32 interrupts in two seconds. *)
Definition rec5_busy : irq_info_s :=
  {| handler := 0x08001000; arg := 0; start := 900; count := 2 ^ 32; time := 250 |}.

(** 2^32 interrupts in one second. *)
Definition rec5_fast : irq_info_s :=
  {| handler := 0x08001000; arg := 0; start := 1000; count := 2 ^ 32; time := 250 |}.

(** An entry that was reset 50 ticks before the 32-bit tick counter
    wrapped. *)
Definition rec5_wrap : irq_info_s :=
  {| handler := 0x08001000; arg := 0; start := 2 ^ 32 - 50; count := 120; time := 250 |}.

Definition h1 : heap := {| blocks := {[ 1%positive := zeroed ]}; nfree := 4; stale := zeroed |}.
Definition fp1 : file := {| f_pos := 0; f_priv := Some 1%positive |}.
Definition fp0 : file := {| f_pos := 0; f_priv := None |}.

(** * Properties *)

Arguments snprintf : simpl never.
Arguments procfs_memcpy : simpl never.
Arguments irq_line : simpl never.
Arguments clock_t : simpl never.
Arguments size_t : simpl never.
Arguments slice : simpl never.
Arguments fed : simpl never.
Arguments HDR_FMT : simpl never.

(** ** Lists and slices *)

Lemma slice_nil {A} off room : slice off room (@nil A) = [].
Proof. unfold slice. by rewrite drop_nil, take_nil. Qed.

Lemma slice_no_room {A} off room (l : list A) : room <= 0 -> slice off room l = [].
Proof. intros Hr. unfold slice. by replace (Z.to_nat room) with 0%nat by lia. Qed.

Lemma slice_length {A} off room (l : list A) :
  0 <= off -> 0 <= room ->
  Z.of_nat (length (slice off room l)) = Z.min room (Z.max 0 (Z.of_nat (length l) - off)).
Proof. intros Ho Hr. unfold slice. rewrite length_take, length_drop. lia. Qed.

Lemma slice_app {A} off room (a b : list A) :
  0 <= off -> 0 <= room ->
  slice off room (a ++ b) =
  slice off room a ++
  slice (off - Z.min off (Z.of_nat (length a)))
        (room - Z.of_nat (length (slice off room a))) b.
Proof.
  intros Ho Hr. unfold slice at 1 2 3.
  rewrite drop_app, take_app, length_drop. f_equal.
  rewrite (slice_length off room a Ho Hr).
  f_equal; [lia |]. f_equal. lia.
Qed.

Lemma slice_all {A} room (l : list A) :
  Z.of_nat (length l) <= room -> slice 0 room l = l.
Proof. intros Hl. unfold slice. simpl. apply take_ge. lia. Qed.

(** ** Machine integers *)

Lemma size_t_small x : 0 <= x < 2 ^ 32 -> size_t x = x.
Proof. intros Hx. unfold size_t. by apply Z.mod_small. Qed.

Lemma int32_small x : - 2 ^ 31 <= x < 2 ^ 31 -> int32 x = x.
Proof. intros Hx. unfold int32. rewrite Z.mod_small; lia. Qed.

(** ** [snprintf] and [procfs_memcpy] *)

Lemma snprintf_fits buf size (s : list ascii) :
  Z.of_nat (length s) < size ->
  snprintf buf size s = (Z.of_nat (length s), s ++ NUL :: drop (S (length s)) buf).
Proof.
  intros Hs. unfold snprintf.
  rewrite take_ge by lia. reflexivity.
Qed.

Lemma procfs_memcpy_slice (s tail dest : list ascii) destlen off :
  0 <= off -> 0 <= destlen ->
  procfs_memcpy (s ++ tail) (Z.of_nat (length s)) dest destlen off =
  (Z.of_nat (length (slice off destlen s)),
   dest ++ slice off destlen s,
   off - Z.min off (Z.of_nat (length s))).
Proof.
  intros Ho Hd. unfold procfs_memcpy.
  destruct (Z.leb_spec (Z.of_nat (length s)) off) as [Hle|Hlt].
  - unfold slice. rewrite (drop_ge s) by lia. rewrite take_nil, app_nil_r.
    simpl. repeat f_equal. lia.
  - rewrite (slice_length off destlen s Ho Hd).
    replace (Z.min destlen (Z.max 0 (Z.of_nat (length s) - off)))
      with (Z.min (Z.of_nat (length s) - off) destlen) by lia.
    repeat f_equal; [| lia].
    unfold slice. rewrite drop_app_le by lia.
    rewrite take_app_le by (rewrite length_drop; lia).
    destruct (Z.le_gt_cases destlen (Z.of_nat (length s) - off)).
    + by rewrite Z.min_r.
    + rewrite Z.min_l by lia.
      rewrite !take_ge; [done | rewrite length_drop; lia | rewrite length_drop; lia].
Qed.

(** ** One visit *)

Section Visit.

Context `{Target}.

Lemma clock_t_range x : 0 <= clock_t x < 2 ^ 64.
Proof.
  unfold clock_t. destruct SYSTEM_TIME64.
  - apply Z.mod_pos_bound. lia.
  - pose proof (Z.mod_pos_bound x (2 ^ 32)). lia.
Qed.

Lemma running_fed buflen f s line' :
  running buflen f -> running buflen (fed f s line').
Proof.
  unfold running, fed. intros (Ho & Hr & Hn & Hsum & Hb). simpl.
  pose proof (slice_length (offset f) (remaining f) s Ho Hr). lia.
Qed.

Lemma irq_callback_idle irq info f clk now clk' :
  clock_systime_ticks clk = (now, clk') ->
  count info = 0 ->
  irq_callback irq info (f, clk) = (0, irq_reset now info, (f, clk')).
Proof. intros Hclk Hc. unfold irq_callback. rewrite Hclk, Hc. reflexivity. Qed.

Lemma irq_callback_busy buflen irq info f clk now clk' :
  clock_systime_ticks clk = (now, clk') ->
  count info <> 0 ->
  running buflen f ->
  Z.of_nat (length (irq_line irq info now)) < IRQ_LINELEN ->
  irq_callback irq info (f, clk) =
  ((if 0 <? remaining f -
            Z.of_nat (length (slice (offset f) (remaining f) (irq_line irq info now)))
    then 0 else 1),
   irq_reset now info,
   (fed f (irq_line irq info now)
        (irq_line irq info now ++
         NUL :: drop (S (length (irq_line irq info now))) (line f)),
    clk')).
Proof.
  intros Hclk Hc (Ho & Hr & Hn & Hsum & Hb) Hfit.
  unfold irq_callback. rewrite Hclk.
  destruct (Z.eqb_spec (count info) 0) as [|_]; [done |].
  rewrite (snprintf_fits _ _ _ Hfit).
  rewrite procfs_memcpy_slice by done.
  pose proof (slice_length (offset f) (remaining f) (irq_line irq info now) Ho Hr) as Hlen.
  cbv beta iota zeta. cbn [remaining]. unfold fed.
  rewrite !size_t_small by lia.
  by destruct (0 <? _).
Qed.

End Visit.

(** ** The traversal *)

Section Traversal.

Context `{Target}.

(** What a traversal copies: the slice of the lines of the whole table
    that starts at the session's offset and fills the room that remains,
    whether or not the traversal is stopped. *)
Lemma irq_foreach_copy buflen vec : forall f clk,
  running buflen f ->
  lines_fit vec clk = true ->
  exists ret vec' f' clk',
    irq_foreach irq_callback vec (f, clk) = (ret, vec', (f', clk')) /\
    let piece := slice (offset f) (remaining f) (irq_lines vec clk) in
    buffer f' = buffer f ++ piece /\
    remaining f' = remaining f - Z.of_nat (length piece) /\
    ncopied f' = ncopied f + Z.of_nat (length piece) /\
    base f' = base f.
Proof.
  induction vec as [|[irq info] rest IH]; intros f clk Hrun Hfit.
  - exists 0, [], f, clk. split; [done |]. cbn. rewrite slice_nil. cbn.
    rewrite app_nil_r. repeat split; lia.
  - cbn [irq_foreach irq_lines lines_fit] in *.
    destruct (clock_systime_ticks clk) as [now clk1] eqn:Hclk.
    apply andb_true_iff in Hfit as [Hfit1 Hfit2]. apply Z.ltb_lt in Hfit1.
    pose proof Hrun as (Ho & Hr & _).
    unfold irq_chunk in *.
    destruct (Z.eqb_spec (count info) 0) as [Hc|Hc].
    + rewrite (irq_callback_idle _ _ _ _ _ _ Hclk Hc). cbn [Z.eqb].
      destruct (IH f clk1 Hrun Hfit2) as (ret & vec' & f' & clk' & -> & Hres).
      by exists ret, ((irq, irq_reset now info) :: vec'), f', clk'.
    + rewrite (irq_callback_busy buflen _ _ _ _ _ _ Hclk Hc Hrun Hfit1).
      set (s := irq_line irq info now) in *.
      set (line' := s ++ _).
      pose proof (slice_length (offset f) (remaining f) s Ho Hr) as Hlen.
      rewrite (slice_app _ _ s) by done.
      destruct (Z.ltb_spec 0 (remaining f - Z.of_nat (length (slice (offset f) (remaining f) s))))
        as [Hroom|Hfull]; cbn [Z.eqb].
      * destruct (IH (fed f s line') clk1 (running_fed _ _ _ _ Hrun) Hfit2)
          as (ret & vec' & f' & clk' & -> & Hres).
        exists ret, ((irq, irq_reset now info) :: vec'), f', clk'.
        split; [done |]. cbn zeta in *. unfold fed in Hres. cbn in Hres.
        destruct Hres as (Hbuf & Hrem & Hn & Hbase).
        rewrite Hbuf, Hrem, Hn, Hbase, length_app, <- app_assoc.
        repeat split; lia.
      * exists 1, ((irq, irq_reset now info) :: rest), (fed f s line'), clk1.
        split; [done |]. cbn zeta.
        rewrite (slice_no_room _ _ (irq_lines rest clk1)) by lia.
        rewrite app_nil_r. unfold fed. cbn. done.
Qed.

(** Every visit resets the entry, whatever the session and the entry
    are, and samples the tick counter once. *)
Lemma irq_callback_reset irq info f clk :
  exists ret f',
    irq_callback irq info (f, clk) =
    (ret, irq_reset (clock_t (ticks clk (nsampled clk))) info,
     (f', {| ticks := ticks clk; nsampled := S (nsampled clk) |})).
Proof.
  unfold irq_callback, clock_systime_ticks.
  destruct (count info =? 0); [by eexists _, _ |].
  destruct (snprintf _ _ _) as [linesize line'].
  destruct (procfs_memcpy _ _ _ _ _) as [[copysize buffer'] offset'].
  destruct (0 <? _); by eexists _, _.
Qed.

(** The entries a traversal has visited are the first [k] ones, [k]
    being the number of samples of the tick counter it took; they are
    reset, each with the time of its visit, and the others are as they
    were. *)
Lemma irq_foreach_visits vec : forall f clk ret vec' f' clk',
  irq_foreach irq_callback vec (f, clk) = (ret, vec', (f', clk')) ->
  exists k : nat,
    (k <= length vec)%nat /\
    (vec <> [] -> (1 <= k)%nat) /\
    clk' = {| ticks := ticks clk; nsampled := nsampled clk + k |} /\
    vec' = imap (visited clk) (take k vec) ++ drop k vec.
Proof.
  induction vec as [|[irq info] rest IH]; intros f clk ret vec' f' clk' Hrun.
  - cbn in Hrun. injection Hrun as <- <- <- <-. exists 0%nat.
    destruct clk. cbn. rewrite Nat.add_0_r. done.
  - cbn [irq_foreach] in Hrun.
    destruct (irq_callback_reset irq info f clk) as (r1 & f1 & Hcb).
    rewrite Hcb in Hrun.
    assert (Hhead : visited clk 0 (irq, info) =
                    (irq, irq_reset (clock_t (ticks clk (nsampled clk))) info)).
    { unfold visited. cbn. by rewrite Nat.add_0_r. }
    destruct (r1 =? 0).
    + destruct (irq_foreach irq_callback rest _) as [[r2 rest'] [f2 clk2]] eqn:Hrest.
      injection Hrun as <- <- <- <-.
      destruct (IH _ _ _ _ _ _ Hrest) as (k & Hk & _ & -> & ->).
      exists (S k). cbn [length take drop imap app ticks nsampled].
      rewrite Hhead. repeat split; [lia | lia | f_equal; lia |].
      do 2 f_equal. apply imap_ext. intros i r _. unfold visited. cbn.
      by rewrite Nat.add_succ_r.
    + injection Hrun as <- <- <- <-. exists 1%nat.
      cbn [length take drop imap app]. rewrite Hhead.
      repeat split; [lia | lia | f_equal; lia].
Qed.

(** Without room nothing more is stored. *)
Lemma irq_callback_no_room irq info f clk ret info' f' clk' :
  remaining f = 0 -> 0 <= ncopied f < 2 ^ 32 ->
  irq_callback irq info (f, clk) = (ret, info', (f', clk')) ->
  buffer f' = buffer f /\ ncopied f' = ncopied f /\ remaining f' = 0.
Proof.
  intros Hrem Hn Hcb. unfold irq_callback in Hcb.
  destruct (clock_systime_ticks clk) as [now clk1].
  destruct (count info =? 0).
  - by injection Hcb as <- <- <- <-.
  - destruct (snprintf _ _ _) as [linesize line'].
    unfold procfs_memcpy in Hcb. rewrite Hrem in Hcb.
    destruct (linesize <=? offset f) eqn:Hskip; cbn [remaining] in Hcb.
    + rewrite Z.sub_0_r, Z.add_0_r, (size_t_small 0), (size_t_small (ncopied f)) in Hcb
        by lia.
      cbn in Hcb. by injection Hcb as <- <- <- <-.
    + apply Z.leb_gt in Hskip.
      rewrite Z.min_r in Hcb by lia.
      rewrite Z.sub_0_r, Z.add_0_r, (size_t_small 0), (size_t_small (ncopied f)) in Hcb
        by lia.
      cbn in Hcb. injection Hcb as <- <- <- <-. cbn.
      by rewrite app_nil_r.
Qed.

Lemma irq_foreach_no_room vec : forall f clk ret vec' f' clk',
  remaining f = 0 -> 0 <= ncopied f < 2 ^ 32 ->
  irq_foreach irq_callback vec (f, clk) = (ret, vec', (f', clk')) ->
  buffer f' = buffer f /\ ncopied f' = ncopied f /\ remaining f' = 0.
Proof.
  induction vec as [|[irq info] rest IH]; intros f clk ret vec' f' clk' Hrem Hn Hrun.
  - cbn in Hrun. by injection Hrun as <- <- <- <-.
  - cbn [irq_foreach] in Hrun.
    destruct (irq_callback irq info (f, clk)) as [[r1 info1] [f1 clk1]] eqn:Hcb.
    destruct (irq_callback_no_room _ _ _ _ _ _ _ _ Hrem Hn Hcb) as (Hb1 & Hn1 & Hr1).
    destruct (r1 =? 0).
    + destruct (irq_foreach irq_callback rest _) as [[r2 rest'] [f2 clk2]] eqn:Hrest.
      injection Hrun as <- <- <- <-.
      destruct (IH _ _ _ _ _ _ Hr1 ltac:(lia) Hrest) as (Hb2 & Hn2 & Hr2).
      repeat split; congruence.
    + by injection Hrun as <- <- <- <-.
Qed.

End Traversal.

(** ** A read *)

Section Read.

Context `{Target}.

Lemma HDR_FMT_length : length HDR_FMT = 47%nat.
Proof. reflexivity. Qed.

Lemma irq_read_header_slice s0 pos buflen :
  0 <= pos -> 0 <= buflen < 2 ^ 32 ->
  let f := irq_read_header s0 pos buflen in
  buffer f = slice pos buflen HDR_FMT /\
  remaining f = buflen - Z.of_nat (length (slice pos buflen HDR_FMT)) /\
  ncopied f = Z.of_nat (length (slice pos buflen HDR_FMT)) /\
  offset f = pos - Z.min pos 47 /\
  base f = base s0 /\
  running buflen f.
Proof.
  intros Hpos Hlen. unfold irq_read_header. cbn [line buffer remaining offset base].
  rewrite snprintf_fits by (rewrite HDR_FMT_length; unfold IRQ_LINELEN; lia).
  rewrite procfs_memcpy_slice by lia.
  pose proof (slice_length pos buflen HDR_FMT Hpos ltac:(lia)) as Hl.
  rewrite HDR_FMT_length in *. cbn zeta. cbn [line buffer remaining offset base ncopied].
  rewrite size_t_small by lia.
  unfold running. cbn [line buffer remaining offset base ncopied].
  repeat split; try done; lia.
Qed.

(** A read on an open file returns the slice of the report that starts
    at the file position and has the length of the buffer, or what is
    left of the report. *)
Lemma irq_read_slice h w filep p s0 buflen :
  f_priv filep = Some p -> blocks h !! p = Some s0 ->
  0 <= f_pos filep -> 0 <= buflen < 2 ^ 32 ->
  report_fits w = true ->
  exists f' w',
    let out := slice (f_pos filep) buflen (report w) in
    irq_read h w filep buflen =
    Some (ssize_t (Z.of_nat (length out)), out, kmm_store p f' h, w',
          {| f_pos := off_t (f_pos filep + Z.of_nat (length out)); f_priv := Some p |}).
Proof.
  intros Hp Hs Hpos Hlen Hfit. unfold irq_read. rewrite Hp, Hs.
  destruct (irq_read_header_slice s0 (f_pos filep) buflen Hpos Hlen)
    as (Hb & Hr & Hn & Ho & _ & Hrun).
  destruct (irq_foreach_copy buflen (g_irqvector w) _ (g_clock w) Hrun Hfit)
    as (ret & vec' & f' & clk' & -> & Hres).
  cbn zeta in Hres. rewrite Hb, Hr, Hn, Ho in Hres.
  destruct Hres as (Hb' & _ & Hn' & _).
  exists f', {| g_irqvector := vec'; g_clock := clk' |}. cbn zeta.
  unfold report. rewrite slice_app, HDR_FMT_length, length_app by lia.
  rewrite Hb', Hn', !Nat2Z.inj_add. by change (Z.of_nat 47) with 47.
Qed.

End Read.

(** ** The rate and the count *)

Section Rate.

Context `{Target}.

Lemma irq_elapsed_pos now copy : 1 <= irq_elapsed now copy.
Proof.
  unfold irq_elapsed. pose proof (clock_t_range (now - start copy)).
  destruct (Z.eqb_spec (clock_t (now - start copy)) 0); lia.
Qed.

(** C8: the window used as divisor of the rate is now minus the start
    of the window of the snapshot, in [clock_t] arithmetic, raised to 1
    tick when it is 0; it is the divisor of both divisions of the line
    that is rendered, it is never zero, and so both quotients are the
    Euclidean ones. *)
Theorem irq_elapsed_never_zero (irq now : Z) (copy : irq_info_s) :
  let elapsed := irq_elapsed now copy in
  elapsed = Z.max 1 (clock_t (now - start copy)) /\
  elapsed <> 0 /\
  irq_line irq copy now =
    IRQ_FMT (uint irq) (ulong (handler copy)) (ulong (arg copy)) (irq_count copy)
            (irq_rate copy elapsed).1 (irq_rate copy elapsed).2
            (ulong (tv_nsec (up_perf_convert (time copy))) / 1000) /\
  (forall x, elapsed * (x / elapsed) <= x < elapsed * (x / elapsed + 1)).
Proof.
  intros elapsed. pose proof (irq_elapsed_pos now copy) as Hpos. fold elapsed in Hpos.
  repeat split.
  - unfold elapsed, irq_elapsed. pose proof (clock_t_range (now - start copy)).
    destruct (Z.eqb_spec (clock_t (now - start copy)) 0); lia.
  - lia.
  - unfold irq_line. fold elapsed. by destruct (irq_rate copy elapsed).
  - apply Z.mul_div_le. lia.
  - pose proof (Z.mul_succ_div_gt x elapsed ltac:(lia)). lia.
Qed.

Lemma irq_count_range copy : 0 <= irq_count copy <= ULONG_MAX.
Proof.
  unfold irq_count, ULONG_MAX, ulong.
  pose proof (Z.mod_pos_bound (count copy) (2 ^ 32) ltac:(lia)).
  destruct (_ <? _); lia.
Qed.

(** C4, amended: when the product count x ticks-per-second fits 64 bits
    and its quotient by the window fits [unsigned int], a quotient above
    9999 is rendered as 9999.999; a count above [ULONG_MAX] is rendered
    as [ULONG_MAX], and the count rendered is never negative nor above
    [ULONG_MAX]. *)
Theorem irq_rate_saturates (irq now : Z) (copy : irq_info_s) :
  let elapsed := irq_elapsed now copy in
  (0 <= count copy * TICK_PER_SEC < 2 ^ 64 ->
   9999 < count copy * TICK_PER_SEC / elapsed < 2 ^ 32 ->
   irq_rate copy elapsed = (9999, 999) /\
   irq_line irq copy now =
     fmt_u 3 (uint irq) ++ " "%char ::
     fmt_0x 8 (ulong (handler copy)) ++ " "%char ::
     fmt_0x 8 (ulong (arg copy)) ++ " "%char ::
     fmt_u 10 (irq_count copy) ++ " "%char ::
     text "9999.999" ++ " "%char ::
     fmt_u 4 (ulong (tv_nsec (up_perf_convert (time copy))) / 1000) ++ [newline]) /\
  (ULONG_MAX < count copy ->
   irq_count copy = ULONG_MAX /\ fmt_u 10 (irq_count copy) = text "4294967295") /\
  0 <= irq_count copy <= ULONG_MAX.
Proof.
  intros elapsed. split; [| split].
  - intros Hprod Hrate.
    assert (Hr : irq_rate copy elapsed = (9999, 999)).
    { unfold irq_rate, uint64_t, uint.
      rewrite (Z.mod_small (count copy * TICK_PER_SEC)) by lia.
      rewrite (Z.mod_small (_ / _)) by lia.
      destruct (Z.leb_spec 10000 (count copy * TICK_PER_SEC / elapsed)); [done | lia]. }
    split; [done |].
    unfold irq_line. fold elapsed. rewrite Hr. unfold IRQ_FMT.
    change (fmt_u 4 9999 ++ "."%char :: fmt_0u 3 999 ++ " "%char :: ?l)
      with (text "9999.999" ++ " "%char :: l).
    reflexivity.
  - intros Hbig. unfold irq_count.
    destruct (Z.ltb_spec ULONG_MAX (count copy)); [done | lia].
  - apply irq_count_range.
Qed.

End Rate.

(** ** Opening the file *)

Section Open.

Context `{Target}.

(** C5: [irq_open] fails with [EACCES] exactly when the access mode has
    the write bit or lacks the read bit, and then neither the heap nor
    the file changes, however often it is tried; otherwise a session
    that is all zero is allocated at an address that was not in use and
    is stored in the file, or, when the allocation fails, the result is
    [ENOMEM] and neither the heap nor the file changes. *)
Theorem irq_open_access (h : heap) (filep : file) (oflags : Z) (n : nat) :
  let denied := Z.land oflags O_WRONLY <> 0 \/ Z.land oflags O_RDONLY = 0 in
  let again := fun hf : heap * file =>
    let r := irq_open hf.1 hf.2 oflags in (r.1.2, r.2) in
  ((irq_open h filep oflags).1.1 = Failed EACCES <-> denied) /\
  (denied -> irq_open h filep oflags = (Failed EACCES, h, filep) /\
             Nat.iter n again (h, filep) = (h, filep)) /\
  (~ denied -> nfree h = O -> irq_open h filep oflags = (Failed ENOMEM, h, filep)) /\
  (~ denied -> nfree h <> O ->
    exists p,
      blocks h !! p = None /\
      irq_open h filep oflags =
      (OK,
       {| blocks := <[p := zeroed]> (blocks h); nfree := pred (nfree h); stale := stale h |},
       {| f_pos := f_pos filep; f_priv := Some p |})).
Proof.
  intros denied again.
  assert (Hden : denied -> irq_open h filep oflags = (Failed EACCES, h, filep)).
  { intros [Hw|Hr]; unfold irq_open.
    - destruct (Z.eqb_spec (Z.land oflags O_WRONLY) 0); [done |]. reflexivity.
    - rewrite Hr. cbn. by rewrite orb_true_r. }
  assert (Hok : ~ denied ->
            irq_open h filep oflags =
            match kmm_zalloc h with
            | None => (Failed ENOMEM, h, filep)
            | Some (p, h') => (OK, h', {| f_pos := f_pos filep; f_priv := Some p |})
            end).
  { intros Hnd. unfold irq_open.
    destruct (Z.eqb_spec (Z.land oflags O_WRONLY) 0) as [Hw|Hw];
      [| exfalso; apply Hnd; by left].
    destruct (Z.eqb_spec (Z.land oflags O_RDONLY) 0) as [Hr|Hr];
      [exfalso; apply Hnd; by right |].
    reflexivity. }
  split; [split |]; [| | split; [| split]].
  - intros Hres. destruct (decide (Z.land oflags O_WRONLY <> 0)) as [|Hw]; [by left |].
    destruct (decide (Z.land oflags O_RDONLY = 0)) as [|Hr]; [by right |].
    exfalso. rewrite Hok in Hres by (intros [?|?]; done).
    destruct (kmm_zalloc h) as [[p h']|]; cbn in Hres; discriminate.
  - intros Hd. by rewrite (Hden Hd).
  - intros Hd. split; [by apply Hden |].
    induction n as [|k IH]; [done |]. rewrite Nat.iter_succ, IH.
    unfold again. cbn [fst snd]. by rewrite (Hden Hd).
  - intros Hnd Hfree. rewrite (Hok Hnd). unfold kmm_zalloc, kmm_alloc. by rewrite Hfree.
  - intros Hnd Hfree. rewrite (Hok Hnd). unfold kmm_zalloc, kmm_alloc.
    destruct (nfree h) as [|k]; [done |].
    exists (fresh (dom (blocks h))). split; [| done].
    apply not_elem_of_dom, is_fresh.
Qed.

End Open.

(** ** The stop signal and the file position *)

Section Position.

Context `{Target}.

Lemma procfs_memcpy_bounds src srclen dest destlen off c d o :
  0 <= off -> 0 <= destlen ->
  procfs_memcpy src srclen dest destlen off = (c, d, o) ->
  0 <= c <= destlen /\ 0 <= o.
Proof.
  intros Ho Hd. unfold procfs_memcpy.
  destruct (Z.leb_spec srclen off); intros [= <- <- <-]; lia.
Qed.

(** The value a visit returns, and the sizes it keeps in range. *)
Lemma irq_callback_signal irq info f clk :
  let r := irq_callback irq info (f, clk) in
  r.1.1 = (if count info =? 0 then 0 else if remaining r.2.1 =? 0 then 1 else 0) /\
  (count info <> 0 -> 0 <= remaining r.2.1).
Proof.
  unfold irq_callback. destruct (clock_systime_ticks clk) as [now clk1].
  destruct (Z.eqb_spec (count info) 0) as [Hc|Hc]; [by cbn |].
  destruct (snprintf _ _ _) as [linesize line'].
  destruct (procfs_memcpy _ _ _ _ _) as [[copysize buffer'] offset'].
  cbn [remaining]. set (rem := size_t _).
  assert (0 <= rem) by (apply Z.mod_pos_bound; lia).
  destruct (Z.ltb_spec 0 rem); cbn; (split; [| done]).
  - destruct (Z.eqb_spec rem 0); [lia | done].
  - destruct (Z.eqb_spec rem 0); [done | lia].
Qed.

Lemma irq_callback_running buflen irq info f clk ret info' f' clk' :
  running buflen f ->
  irq_callback irq info (f, clk) = (ret, info', (f', clk')) ->
  running buflen f'.
Proof.
  intros (Ho & Hr & Hn & Hsum & Hb). unfold irq_callback.
  destruct (clock_systime_ticks clk) as [now clk1].
  destruct (count info =? 0); [by intros [= <- <- <- <-] |].
  destruct (snprintf _ _ _) as [linesize line'].
  destruct (procfs_memcpy _ _ _ _ _) as [[copysize buffer'] offset'] eqn:Hcp.
  apply procfs_memcpy_bounds in Hcp as [Hc Ho']; [| done | done].
  cbn [remaining]. rewrite !size_t_small by lia.
  destruct (0 <? _); intros [= <- <- <- <-]; unfold running; cbn; lia.
Qed.

Lemma irq_foreach_running buflen vec : forall f clk ret vec' f' clk',
  running buflen f ->
  irq_foreach irq_callback vec (f, clk) = (ret, vec', (f', clk')) ->
  running buflen f'.
Proof.
  induction vec as [|[irq info] rest IH]; intros f clk ret vec' f' clk' Hrun.
  - by intros [= <- <- <- <-].
  - cbn [irq_foreach].
    destruct (irq_callback irq info (f, clk)) as [[r1 info1] [f1 clk1]] eqn:Hcb.
    apply (irq_callback_running buflen) in Hcb; [| done].
    destruct (r1 =? 0).
    + destruct (irq_foreach irq_callback rest _) as [[r2 rest'] [f2 clk2]] eqn:Hrest.
      intros [= <- <- <- <-]. by eapply IH.
    + by intros [= <- <- <- <-].
Qed.

(** A read on an open file is the header step, the traversal, and the
    update of the file position. *)
Lemma irq_read_unfold h w filep p s0 buflen :
  f_priv filep = Some p -> blocks h !! p = Some s0 ->
  exists ret vec' f' clk',
    irq_foreach irq_callback (g_irqvector w)
                (irq_read_header s0 (f_pos filep) buflen, g_clock w)
    = (ret, vec', (f', clk')) /\
    irq_read h w filep buflen =
    Some (ssize_t (ncopied f'), buffer f', kmm_store p f' h,
          {| g_irqvector := vec'; g_clock := clk' |},
          {| f_pos := off_t (f_pos filep + ncopied f'); f_priv := Some p |}).
Proof.
  intros Hp Hs. unfold irq_read. rewrite Hp, Hs.
  destruct (irq_foreach _ _ _) as [[ret vec'] [f' clk']].
  by exists ret, vec', f', clk'.
Qed.


End Position.

(** ** Reset on visit *)

Section Reset.

Context `{Target}.

(** C3: every visit, whatever the count of the entry, leaves the entry
    with its handler and argument, with the time sampled by the visit as
    start of the window and with count and time zero, while the line of
    a count that is not zero is rendered from the entry as it was; a
    visit of a zero count stores nothing.  After a read the entries it
    visited, the first [k], are reset in that way, each with the time of
    its own visit, and no other entry has changed. *)
Theorem irq_read_resets_visited (irq : Z) (info : irq_info_s) (f : irq_file_s)
    (clk : sysclock) (h : heap) (w : World) (filep : file) (p : positive)
    (s0 : irq_file_s) (buflen : Z) :
  f_priv filep = Some p -> blocks h !! p = Some s0 ->
  (exists ret f',
     let now := clock_t (ticks clk (nsampled clk)) in
     irq_callback irq info (f, clk) =
     (ret,
      {| handler := handler info; arg := arg info; start := now; count := 0; time := 0 |},
      (f', {| ticks := ticks clk; nsampled := S (nsampled clk) |})) /\
     (count info = 0 -> ret = 0 /\ f' = f) /\
     (count info <> 0 ->
      line f' = (snprintf (line f) IRQ_LINELEN (irq_line irq info now)).2)) /\
  exists ret out h' w' filep' (k : nat),
    irq_read h w filep buflen = Some (ret, out, h', w', filep') /\
    (k <= length (g_irqvector w))%nat /\
    g_clock w' =
      {| ticks := ticks (g_clock w); nsampled := nsampled (g_clock w) + k |} /\
    (forall (i : nat) (n : Z) (e : irq_info_s),
       (i < k)%nat -> g_irqvector w !! i = Some (n, e) ->
       g_irqvector w' !! i =
       Some (n, {| handler := handler e; arg := arg e;
                   start := clock_t (ticks (g_clock w) (nsampled (g_clock w) + i)%nat);
                   count := 0; time := 0 |})) /\
    (forall i : nat, (k <= i)%nat -> g_irqvector w' !! i = g_irqvector w !! i).
Proof.
  intros Hp Hs. split.
  - unfold irq_callback, clock_systime_ticks, irq_reset.
    destruct (Z.eqb_spec (count info) 0) as [Hc|Hc].
    + eexists _, _. split; [reflexivity |]. by split.
    + destruct (snprintf _ _ _) as [linesize line'] eqn:Hsn.
      destruct (procfs_memcpy _ _ _ _ _) as [[copysize buffer'] offset'].
      destruct (0 <? _); (eexists _, _; split; [reflexivity |]); by split.
  - destruct (irq_read_unfold h w filep p s0 buflen Hp Hs)
      as (ret & vec' & f' & clk' & Hrun & Hread).
    destruct (irq_foreach_visits _ _ _ _ _ _ _ Hrun) as (k & Hk & _ & Hclk & Hvec).
    eexists _, _, _, _, _, k. split; [exact Hread |]. cbn [g_irqvector g_clock].
    split; [done |]. split; [done |]. rewrite Hvec. split.
    + intros i n e Hi He.
      rewrite lookup_app_l by (rewrite length_imap, length_take; lia).
      by rewrite list_lookup_imap, lookup_take_lt, He.
    + intros i Hi.
      rewrite lookup_app_r by (rewrite length_imap, length_take; lia).
      rewrite length_imap, length_take, lookup_drop. f_equal. lia.
Qed.

(** C10: a read on an open file runs the traversal whatever the
    capacity: when the table is not empty the tick counter is sampled
    and the first entry is reset, also when the capacity is zero or is
    used up by the header, in which case the bytes delivered are those
    of the header only (none for capacity zero). *)
Theorem irq_read_always_resets_first (h : heap) (w : World) (filep : file)
    (p : positive) (s0 : irq_file_s) (buflen : Z) (irq : Z) (info : irq_info_s)
    (rest : irqvector) :
  f_priv filep = Some p -> blocks h !! p = Some s0 ->
  g_irqvector w = (irq, info) :: rest ->
  exists ret out h' w' filep' rest',
    irq_read h w filep buflen = Some (ret, out, h', w', filep') /\
    (nsampled (g_clock w) < nsampled (g_clock w'))%nat /\
    g_irqvector w' =
      (irq, {| handler := handler info; arg := arg info;
               start := clock_t (ticks (g_clock w) (nsampled (g_clock w)));
               count := 0; time := 0 |}) :: rest' /\
    (0 <= f_pos filep -> 0 <= buflen <= Z.max 0 (47 - f_pos filep) ->
     ret = buflen /\ out = slice (f_pos filep) buflen HDR_FMT /\
     (buflen = 0 -> out = [])).
Proof.
  intros Hp Hs Hvec0.
  destruct (irq_read_unfold h w filep p s0 buflen Hp Hs)
    as (ret & vec' & f' & clk' & Hrun & Hread).
  destruct (irq_foreach_visits _ _ _ _ _ _ _ Hrun) as (k & Hk & Hk1 & Hclk & Hvec).
  rewrite Hvec0 in Hk1, Hvec. specialize (Hk1 ltac:(done)).
  destruct k as [|k]; [lia |]. cbn [take imap app drop] in Hvec.
  eexists _, _, _, _, _, _. split; [exact Hread |]. cbn [g_irqvector g_clock].
  split; [rewrite Hclk; cbn; lia |]. split.
  { rewrite Hvec. unfold visited, irq_reset. cbn [fst snd].
    rewrite Nat.add_0_r. reflexivity. }
  intros Hpos Hlen.
  destruct (irq_read_header_slice s0 (f_pos filep) buflen Hpos ltac:(lia))
    as (Hb & Hr & Hn & _ & _ & _).
  pose proof (slice_length (f_pos filep) buflen HDR_FMT Hpos ltac:(lia)) as Hl.
  rewrite HDR_FMT_length in Hl. change (Z.of_nat 47) with 47 in Hl.
  apply irq_foreach_no_room in Hrun as (Hb' & Hn' & _); [| lia | lia].
  rewrite Hb', Hn', Hb, Hn, Hl.
  replace (Z.min buflen (Z.max 0 (47 - f_pos filep))) with buflen by lia.
  split; [apply int32_small; lia |]. split; [done |].
  intros ->. by apply slice_no_room.
Qed.

End Reset.

(** ** The lines of the report *)

Section Lines.

Context `{Target}.

Lemma digit_char_not_newline d : digit_char d <> newline.
Proof.
  unfold digit_char.
  destruct (nth_in_or_default (Z.to_nat d)
              (list_ascii_of_string "0123456789abcdef") "0"%char) as [Hin| ->];
    [| discriminate].
  intros Heq. rewrite Heq in Hin. cbn in Hin. intuition discriminate.
Qed.

Lemma digits_from_no_newline fuel radix : forall n acc,
  newline ∉ acc -> newline ∉ digits_from fuel radix n acc.
Proof.
  induction fuel as [|fuel IH]; intros n acc Hacc; cbn; [done |].
  assert (newline ∉ digit_char (n mod radix) :: acc).
  { apply not_elem_of_cons. split; [| done].
    intros Heq. by apply (digit_char_not_newline (n mod radix)). }
  destruct (n / radix =? 0); [done | by apply IH].
Qed.

Lemma pad_left_no_newline fill width s :
  fill <> newline -> newline ∉ s -> newline ∉ pad_left fill width s.
Proof.
  intros Hfill Hs. unfold pad_left. rewrite elem_of_app.
  intros [[Heq _]%elem_of_replicate|]; [by apply Hfill | done].
Qed.

Lemma fmt_no_newline width n :
  (newline ∉ fmt_u width n) /\ (newline ∉ fmt_0u width n) /\ (newline ∉ fmt_0x width n).
Proof.
  repeat split; (apply pad_left_no_newline; [discriminate |]);
    apply digits_from_no_newline, not_elem_of_nil.
Qed.

(** A line of the report is one line: its only newline is its last
    character. *)
Lemma IRQ_FMT_one_line irq hdl ar cnt intpart fracpart usec :
  exists body,
    IRQ_FMT irq hdl ar cnt intpart fracpart usec = body ++ [newline] /\
    newline ∉ body.
Proof.
  exists (fmt_u 3 irq ++ " "%char :: fmt_0x 8 hdl ++ " "%char :: fmt_0x 8 ar ++ " "%char ::
          fmt_u 10 cnt ++ " "%char :: fmt_u 4 intpart ++ "."%char ::
          fmt_0u 3 fracpart ++ " "%char :: fmt_u 4 usec).
  split.
  - unfold IRQ_FMT. by repeat (rewrite <- app_assoc; cbn [app]).
  - repeat (rewrite elem_of_app || rewrite elem_of_cons).
    pose proof (fmt_no_newline 3 irq). pose proof (fmt_no_newline 8 hdl).
    pose proof (fmt_no_newline 8 ar). pose proof (fmt_no_newline 10 cnt).
    pose proof (fmt_no_newline 4 intpart). pose proof (fmt_no_newline 3 fracpart).
    pose proof (fmt_no_newline 4 usec).
    intuition (done || discriminate).
Qed.

Lemma irq_lines_imap vec : forall clk,
  irq_lines vec clk =
  concat (imap (fun i r => irq_chunk r.1 r.2 (clock_t (ticks clk (nsampled clk + i)%nat)))
               vec).
Proof.
  induction vec as [|[irq info] rest IH]; intros clk; [done |].
  cbn [irq_lines clock_systime_ticks]. rewrite imap_cons. cbn [concat fst snd].
  rewrite Nat.add_0_r, IH. do 2 f_equal.
  apply imap_ext. intros i r _. cbn. by rewrite Nat.add_succ_r.
Qed.

(** C7: a read from position 0 into a buffer that holds the whole
    report delivers the header and then, entry by entry in the order of
    the table, nothing for an entry whose snapshot count is zero and the
    line of the snapshot for every other entry; such a line is the
    fixed format filled in, and is one line. *)
Theorem irq_read_renders_lines (h : heap) (w : World) (filep : file) (p : positive)
    (s0 : irq_file_s) (buflen : Z) :
  f_priv filep = Some p -> blocks h !! p = Some s0 ->
  f_pos filep = 0 ->
  report_fits w = true ->
  Z.of_nat (length (report w)) <= buflen <= SSIZE_MAX ->
  let now := fun i : nat => clock_t (ticks (g_clock w) (nsampled (g_clock w) + i)%nat) in
  let rendered :=
    HDR_FMT ++
    concat (imap (fun i r => if count r.2 =? 0 then [] else irq_line r.1 r.2 (now i))
                 (g_irqvector w)) in
  (exists h' w' filep',
     irq_read h w filep buflen =
     Some (Z.of_nat (length rendered), rendered, h', w', filep')) /\
  (forall irq copy t,
     exists body,
       irq_line irq copy t = body ++ [newline] /\ (newline ∉ body) /\
       irq_line irq copy t =
       IRQ_FMT (uint irq) (ulong (handler copy)) (ulong (arg copy)) (irq_count copy)
               (irq_rate copy (irq_elapsed t copy)).1
               (irq_rate copy (irq_elapsed t copy)).2
               (ulong (tv_nsec (up_perf_convert (time copy))) / 1000)).
Proof.
  intros Hp Hs Hpos Hfit Hlen now rendered. unfold SSIZE_MAX in Hlen.
  assert (Hrep : rendered = report w).
  { unfold rendered, report. by rewrite irq_lines_imap. }
  split.
  - destruct (irq_read_slice h w filep p s0 buflen Hp Hs ltac:(lia) ltac:(lia) Hfit)
      as (f' & w' & Hread).
    cbn zeta in Hread. rewrite Hpos, slice_all in Hread by lia.
    rewrite Hrep. eexists _, _, _. rewrite Hread. do 5 f_equal.
    apply int32_small. lia.
  - intros irq copy t.
    assert (Hline : irq_line irq copy t =
       IRQ_FMT (uint irq) (ulong (handler copy)) (ulong (arg copy)) (irq_count copy)
               (irq_rate copy (irq_elapsed t copy)).1
               (irq_rate copy (irq_elapsed t copy)).2
               (ulong (tv_nsec (up_perf_convert (time copy))) / 1000)).
    { unfold irq_line. by destruct (irq_rate copy (irq_elapsed t copy)). }
    destruct (IRQ_FMT_one_line (uint irq) (ulong (handler copy)) (ulong (arg copy))
                (irq_count copy) (irq_rate copy (irq_elapsed t copy)).1
                (irq_rate copy (irq_elapsed t copy)).2
                (ulong (tv_nsec (up_perf_convert (time copy))) / 1000))
      as (body & Hbody & Hnl).
    exists body. rewrite Hline. by repeat split.
Qed.

End Lines.

(** ** Duplicated files *)

Section Dup.

Context `{Target}.

(** A read changes no session but that of the file it is given. *)
Lemma irq_read_frame h w filep p buflen ret out h' w' filep' :
  f_priv filep = Some p ->
  irq_read h w filep buflen = Some (ret, out, h', w', filep') ->
  f_priv filep' = Some p /\
  forall r, r <> p -> blocks h' !! r = blocks h !! r.
Proof.
  intros Hp. unfold irq_read. rewrite Hp.
  destruct (blocks h !! p) as [s0|]; [| done].
  destruct (irq_foreach _ _ _) as [[r1 vec'] [f' clk']].
  intros [= <- <- <- <- <-]. split; [done |].
  intros r Hr. cbn. by rewrite lookup_insert_ne.
Qed.

(** C9: [irq_dup] allocates a session at an address that was not in
    use and copies the session of the original into it; a read through
    one of the two files changes neither the session nor the position of
    the other, which then still reads from its own position; and both
    files read and reset one and the same interrupt table: from the same
    world and position they deliver the same bytes and leave the same
    world, and a read through the duplicate that follows a read through
    the original reports the world that read has left. *)
Theorem irq_dup_independent (h : heap) (oldp newp : file) (p : positive)
    (s : irq_file_s) (w : World) (buflen buflen2 : Z) :
  f_priv oldp = Some p -> blocks h !! p = Some s -> nfree h <> O ->
  exists q h1,
    let dupp := {| f_pos := f_pos newp; f_priv := Some q |} in
    irq_dup h oldp newp = Some (OK, h1, dupp) /\
    q <> p /\ blocks h !! q = None /\
    blocks h1 !! q = Some s /\ blocks h1 !! p = Some s /\
    exists ret out h2 w' oldp',
      irq_read h1 w oldp buflen = Some (ret, out, h2, w', oldp') /\
      f_priv oldp' = Some p /\
      blocks h2 !! q = Some s /\
      (exists h2' dupp',
         irq_read h1 w {| f_pos := f_pos oldp; f_priv := Some q |} buflen =
           Some (ret, out, h2', w', dupp') /\
         f_pos dupp' = f_pos oldp' /\
         blocks h2' !! p = Some s) /\
      (0 <= f_pos newp -> 0 <= buflen2 < 2 ^ 32 -> report_fits w' = true ->
       exists ret2 h3 w'' dupp',
         irq_read h2 w' dupp buflen2 =
           Some (ret2, slice (f_pos newp) buflen2 (report w'), h3, w'', dupp')).
Proof.
  intros Hp Hs Hfree.
  set (q := fresh (dom (blocks h))).
  assert (Hq : blocks h !! q = None) by apply not_elem_of_dom, is_fresh.
  assert (Hqp : q <> p) by (intros ->; congruence).
  set (h1 := kmm_store q s {| blocks := <[q := stale h]> (blocks h);
                              nfree := pred (nfree h); stale := stale h |}).
  exists q, h1. cbn zeta.
  split.
  { unfold irq_dup. rewrite Hp, Hs. unfold kmm_malloc, kmm_alloc.
    subst h1. destruct (nfree h) as [|k]; [done |]. reflexivity. }
  split; [done |]. split; [done |].
  assert (Hq1 : blocks h1 !! q = Some s) by (cbn; by rewrite lookup_insert_eq).
  assert (Hp1 : blocks h1 !! p = Some s) by (cbn; by rewrite !lookup_insert_ne).
  split; [done |]. split; [done |].
  destruct (irq_read_unfold h1 w oldp p s buflen Hp Hp1)
    as (ret & vec' & f' & clk' & Hrun & Hread).
  eexists _, _, _, _, _. split; [exact Hread |]. split; [done |].
  split; [cbn; by rewrite lookup_insert_ne |].
  split.
  - destruct (irq_read_unfold h1 w {| f_pos := f_pos oldp; f_priv := Some q |} q s buflen
                eq_refl Hq1) as (ret' & vec'' & f'' & clk'' & Hrun' & Hread').
    cbn [f_pos] in Hrun', Hread'. rewrite Hrun in Hrun'.
    injection Hrun' as <- <- <- <-.
    eexists _, _. split; [exact Hread' |]. split; [done |].
    cbn. by rewrite lookup_insert_ne.
  - intros Hpos Hlen Hfit.
    destruct (irq_read_slice (kmm_store p f' h1) {| g_irqvector := vec'; g_clock := clk' |}
                {| f_pos := f_pos newp; f_priv := Some q |} q s buflen2 eq_refl
                ltac:(cbn; by rewrite lookup_insert_ne) Hpos Hlen Hfit)
      as (f3 & w3 & Hread3).
    cbn zeta in Hread3. cbn [f_pos] in Hread3. by eexists _, _, _, _.
Qed.

End Dup.

(** ** One report delivered by several reads *)

Section Resume.

Context `{Target}.

Lemma slice_split {A} pos a b (l : list A) :
  0 <= pos -> 0 <= a -> 0 <= b ->
  slice pos a l ++ slice (pos + Z.of_nat (length (slice pos a l))) b l =
  slice pos (a + b) l.
Proof.
  intros Hpos Ha Hb. unfold slice.
  rewrite Z2Nat.inj_add, Nat2Z.id, <- drop_drop by lia.
  rewrite (Z2Nat.inj_add a b) by lia.
  set (d := drop (Z.to_nat pos) l).
  destruct (Nat.le_gt_cases (Z.to_nat a) (length d)) as [Hle|Hgt].
  - rewrite length_take, Nat.min_l by done. apply take_take_drop.
  - rewrite (take_ge d (Z.to_nat a)), drop_all, take_nil, app_nil_r by lia.
    symmetry. apply take_ge. lia.
Qed.

Lemma capacity_nonneg (calls : list (World * Z)) :
  Forall (fun c => 0 <= c.2) calls -> 0 <= capacity calls.
Proof.
  induction 1 as [|c l Hc _ IH]; [done |].
  change (capacity (c :: l)) with (c.2 + capacity l). lia.
Qed.

(** Reads that all find the same report deliver it piece by piece. *)
Lemma read_all_slice rep calls : forall h filep p s0,
  f_priv filep = Some p -> blocks h !! p = Some s0 ->
  0 <= f_pos filep ->
  Forall (fun c => report c.1 = rep /\ report_fits c.1 = true /\ 0 <= c.2 <= SSIZE_MAX)
         calls ->
  f_pos filep + capacity calls <= OFF_MAX ->
  read_all h filep calls = Some (slice (f_pos filep) (capacity calls) rep).
Proof.
  unfold SSIZE_MAX, OFF_MAX.
  induction calls as [|[w buflen] calls IH]; intros h filep p s0 Hp Hs Hpos Hall Hcap.
  - cbn. by rewrite slice_no_room.
  - apply Forall_cons in Hall as [(Hrep & Hfit & Hlen) Hall]. cbn [fst snd] in *.
    assert (0 <= capacity calls).
    { apply capacity_nonneg. eapply Forall_impl; [exact Hall |]. cbn. lia. }
    change (capacity ((w, buflen) :: calls)) with (buflen + capacity calls) in *.
    destruct (irq_read_slice h w filep p s0 buflen Hp Hs Hpos ltac:(lia) Hfit)
      as (f' & w' & Hread).
    cbn zeta in Hread. cbn [read_all]. rewrite Hread, Hrep.
    pose proof (slice_length (f_pos filep) buflen rep Hpos ltac:(lia)) as Hl.
    unfold off_t. rewrite int32_small by lia.
    rewrite (IH (kmm_store p f' h) _ p f'); cbn [f_pos f_priv]; try done; try lia.
    + by rewrite slice_split by lia.
    + cbn. by rewrite lookup_insert_eq.
Qed.

(** C1, amended: when every call finds the same report, that is the
    same line for every entry with a count that is not zero and not only
    the same set of such entries, and every line fits the scratch buffer,
    one read from position 0 with a capacity of at least the length of
    the report returns the same bytes as the concatenation of the
    outputs of successive reads whose capacities add up to that length
    or more, each at the file position the one before has left. *)
Theorem read_all_full_report (h : heap) (filep : file) (p : positive) (s0 : irq_file_s)
    (rep : list ascii) (w0 : World) (buflen0 : Z) (calls : list (World * Z)) :
  f_priv filep = Some p -> blocks h !! p = Some s0 ->
  f_pos filep = 0 ->
  report w0 = rep -> report_fits w0 = true ->
  Z.of_nat (length rep) <= buflen0 <= SSIZE_MAX ->
  Forall (fun c => report c.1 = rep /\ report_fits c.1 = true /\ 0 <= c.2 <= SSIZE_MAX)
         calls ->
  Z.of_nat (length rep) <= capacity calls <= OFF_MAX ->
  exists ret h' w' filep',
    irq_read h w0 filep buflen0 = Some (ret, rep, h', w', filep') /\
    read_all h filep calls = Some rep.
Proof.
  intros Hp Hs Hpos Hrep Hfit Hlen Hall Hcap. unfold SSIZE_MAX in Hlen.
  destruct (irq_read_slice h w0 filep p s0 buflen0 Hp Hs ltac:(lia) ltac:(lia) Hfit)
    as (f' & w' & Hread).
  cbn zeta in Hread. rewrite Hrep, Hpos, slice_all in Hread by lia.
  eexists _, _, _, _. split; [exact Hread |].
  rewrite (read_all_slice rep calls h filep p s0) by (done || lia).
  rewrite Hpos. f_equal. apply slice_all. lia.
Qed.

End Resume.

(** ** The scenario of interrupt 5 *)

Section Scenario.

Context `{Target}.

Lemma LINE_120_rendered (w : World) (info : irq_info_s) :
  0 < TICK_PER_SEC -> 120 * TICK_PER_SEC < 2 ^ 64 ->
  snapshot_120 w info ->
  irq_line 5 info (clock_t (ticks (g_clock w) (nsampled (g_clock w)))) = LINE_120.
Proof.
  intros Htps Hprod (_ & Hh & Ha & Hc & Hwin & Hus).
  unfold irq_line, irq_elapsed. rewrite Hwin.
  destruct (Z.eqb_spec TICK_PER_SEC 0) as [|_]; [lia |].
  unfold irq_rate, irq_count. rewrite Hc, Hh, Ha, Hus.
  assert (E : uint64_t (120 * TICK_PER_SEC) = 120 * TICK_PER_SEC)
    by (apply Z.mod_small; lia).
  rewrite !E, Z.div_mul by lia.
  change (uint 120) with 120. rewrite E, Z.sub_diag.
  change (uint64_t 0) with 0. change (0 * 1000) with 0.
  change (uint64_t 0) with 0. rewrite Z.div_0_l by lia.
  reflexivity.
Qed.

Lemma report_120 (w : World) (info : irq_info_s) :
  0 < TICK_PER_SEC -> 120 * TICK_PER_SEC < 2 ^ 64 ->
  snapshot_120 w info ->
  report w = HDR_FMT ++ LINE_120 /\ report_fits w = true.
Proof.
  intros Htps Hprod Hsnap.
  pose proof (LINE_120_rendered w info Htps Hprod Hsnap) as Hline.
  destruct Hsnap as (Hvec & _ & _ & Hc & _).
  unfold report, report_fits. rewrite Hvec.
  cbn [irq_lines lines_fit clock_systime_ticks]. unfold irq_chunk.
  rewrite Hc, Hline. cbn [Z.eqb]. by rewrite app_nil_r.
Qed.

(** C2, amended: with one entry, interrupt 5, handler 0x08001000,
    argument 0, a read that finds 120 interrupts counted in a window of
    one second and a service time of 250 microseconds delivers the
    header and then the line of the scenario.  A first read of exactly
    the length of the header delivers the header and resets the entry;
    the second read delivers the line, so that the two outputs make up
    header and line, provided the entry shows the same snapshot again
    when the second read visits it. *)
Theorem scenario_header_then_line (h : heap) (filep : file) (p : positive)
    (s0 : irq_file_s) (w1 w2 : World) (info1 info2 : irq_info_s) (buflen2 : Z) :
  f_priv filep = Some p -> blocks h !! p = Some s0 ->
  f_pos filep = 0 ->
  0 < TICK_PER_SEC -> 120 * TICK_PER_SEC < 2 ^ 64 ->
  snapshot_120 w1 info1 -> snapshot_120 w2 info2 ->
  47 <= buflen2 <= SSIZE_MAX - 47 ->
  (exists h' w' filep',
     irq_read h w1 filep (47 + buflen2) = Some (94, HDR_FMT ++ LINE_120, h', w', filep')) /\
  (exists h' w' filep',
     irq_read h w1 filep 47 = Some (47, HDR_FMT, h', w', filep') /\
     g_irqvector w' =
       [(5, irq_reset (clock_t (ticks (g_clock w1) (nsampled (g_clock w1)))) info1)] /\
     exists h'' w'' filep'',
       irq_read h' w2 filep' buflen2 = Some (47, LINE_120, h'', w'', filep'')).
Proof.
  intros Hp Hs Hpos Htps Hprod Hsnap1 Hsnap2 Hlen. unfold SSIZE_MAX in Hlen.
  destruct (report_120 w1 info1 Htps Hprod Hsnap1) as [Hrep1 Hfit1].
  destruct (report_120 w2 info2 Htps Hprod Hsnap2) as [Hrep2 Hfit2].
  split.
  - destruct (irq_read_slice h w1 filep p s0 (47 + buflen2) Hp Hs ltac:(lia) ltac:(lia) Hfit1)
      as (f' & w' & Hread).
    assert (Hl : Z.of_nat (length (HDR_FMT ++ LINE_120)) = 94) by reflexivity.
    cbn zeta in Hread. rewrite Hrep1, Hpos, slice_all in Hread by lia.
    rewrite Hl in Hread. by eexists _, _, _.
  - destruct (irq_read_unfold h w1 filep p s0 47 Hp Hs)
      as (ret & vec' & f' & clk' & Hrun & Hread).
    destruct (irq_read_slice h w1 filep p s0 47 Hp Hs ltac:(lia) ltac:(lia) Hfit1)
      as (f1 & w1' & Hread1).
    cbn zeta in Hread1. rewrite Hrep1, Hpos in Hread1.
    change (slice 0 47 (HDR_FMT ++ LINE_120)) with HDR_FMT in Hread1.
    change (ssize_t (Z.of_nat (length HDR_FMT))) with 47 in Hread1.
    change (off_t (0 + Z.of_nat (length HDR_FMT))) with 47 in Hread1.
    rewrite Hread in Hread1.
    assert (Hret : ssize_t (ncopied f') = 47) by congruence.
    assert (Hout : buffer f' = HDR_FMT) by congruence.
    assert (Hfp : off_t (f_pos filep + ncopied f') = 47) by congruence.
    rewrite Hret, Hout, Hfp in Hread. clear Hread1.
    eexists _, _, _. split; [exact Hread |].
    destruct (irq_foreach_visits _ _ _ _ _ _ _ Hrun) as (k & Hk & Hk1 & _ & Hvec).
    destruct Hsnap1 as (Hvec1 & _). rewrite Hvec1 in Hk, Hk1, Hvec.
    specialize (Hk1 ltac:(done)). cbn [length] in Hk.
    assert (k = 1%nat) as -> by lia.
    split.
    { cbn [g_irqvector]. rewrite Hvec. cbn. unfold visited. cbn [fst snd].
      by rewrite Nat.add_0_r. }
    destruct (irq_read_slice (kmm_store p f' h) w2 {| f_pos := 47; f_priv := Some p |}
                p f' buflen2 eq_refl ltac:(cbn; by rewrite lookup_insert_eq)
                ltac:(cbn; lia) ltac:(lia) Hfit2) as (f2 & w2' & Hread2).
    cbn zeta in Hread2. cbn [f_pos] in Hread2. rewrite Hrep2 in Hread2.
    assert (Hsl : slice 47 buflen2 (HDR_FMT ++ LINE_120) = LINE_120).
    { unfold slice. change (drop (Z.to_nat 47) (HDR_FMT ++ LINE_120)) with LINE_120.
      apply take_ge. change (length LINE_120) with 47%nat. lia. }
    rewrite Hsl in Hread2.
    change (ssize_t (Z.of_nat (length LINE_120))) with 47 in Hread2.
    by eexists _, _, _.
Qed.

End Scenario.

(** ** The scratch buffer is large enough

    With an interrupt number below 1000, a rate whose arithmetic does not
    wrap and a service time below one second, a line has at most 49
    characters and fits [line] with its NUL. *)

Section Fits.

Context `{Target}.

Lemma digits_from_length radix fuel : forall n acc (k : nat),
  2 <= radix -> 0 <= n < radix ^ Z.of_nat k -> (1 <= k)%nat ->
  (length (digits_from fuel radix n acc) <= length acc + k)%nat.
Proof.
  induction fuel as [|fuel IH]; intros n acc k Hr Hn Hk; cbn [digits_from]; [lia |].
  destruct (Z.eqb_spec (n / radix) 0) as [Hq|Hq]; [cbn; lia |].
  assert (Hge : radix <= n).
  { destruct (Z.lt_ge_cases n radix) as [Hlt|]; [| done].
    rewrite Z.div_small in Hq by lia. done. }
  destruct k as [|[|k]]; [lia | |].
  - change (Z.of_nat 1) with 1 in Hn. rewrite Z.pow_1_r in Hn. lia.
  - specialize (IH (n / radix) (digit_char (n mod radix) :: acc) (S k) Hr).
    cbn [length] in IH.
    assert (0 <= n / radix < radix ^ Z.of_nat (S k)).
    { split; [apply Z.div_pos; lia |].
      apply Z.div_lt_upper_bound; [lia |].
      rewrite <- Z.pow_succ_r, <- Nat2Z.inj_succ by lia. lia. }
    specialize (IH ltac:(done) ltac:(lia)). lia.
Qed.

Lemma fmt_length_le fill (width k : nat) radix n :
  2 <= radix -> 0 <= n < radix ^ Z.of_nat k -> (1 <= k)%nat ->
  (length (pad_left fill width (digits radix n)) <= Nat.max width k)%nat.
Proof.
  intros Hr Hn Hk. unfold pad_left, digits.
  pose proof (digits_from_length radix (S (Z.to_nat (Z.log2 n))) n [] k Hr Hn Hk) as Hl.
  rewrite length_app, length_replicate. cbn [length] in Hl. lia.
Qed.

Lemma irq_rate_intpart_range copy elapsed : 0 <= (irq_rate copy elapsed).1 < 10000.
Proof.
  unfold irq_rate.
  set (q := uint _).
  assert (0 <= q) by (apply Z.mod_pos_bound; lia).
  destruct (Z.leb_spec 10000 q); cbn; lia.
Qed.

(** The fractional part has three digits when neither the product nor
    the quotient wraps and the window is below 2^32 ticks. *)
Lemma irq_rate_fracpart_range copy elapsed :
  0 <= count copy * TICK_PER_SEC < 2 ^ 64 ->
  1 <= elapsed < 2 ^ 32 ->
  count copy * TICK_PER_SEC / elapsed < 2 ^ 32 ->
  0 <= (irq_rate copy elapsed).2 < 1000.
Proof.
  intros Hx He Hq. unfold irq_rate, uint64_t, uint.
  set (x := count copy * TICK_PER_SEC) in *.
  assert (0 <= x / elapsed) by (apply Z.div_pos; lia).
  rewrite (Z.mod_small x), (Z.mod_small (x / elapsed)) by lia.
  destruct (Z.leb_spec 10000 (x / elapsed)); cbn [snd]; [lia |].
  pose proof (Z.mul_div_le x elapsed ltac:(lia)).
  pose proof (Z.mod_pos_bound x elapsed ltac:(lia)) as Hm.
  rewrite (Z.mod_small (x / elapsed * elapsed)) by nia.
  replace (x - x / elapsed * elapsed) with (x mod elapsed)
    by (rewrite Z.mod_eq by lia; lia).
  rewrite (Z.mod_small (x mod elapsed)) by lia.
  rewrite (Z.mod_small (x mod elapsed * 1000)) by nia.
  assert (0 <= x mod elapsed * 1000 / elapsed < 1000).
  { split; [apply Z.div_pos; lia |]. apply Z.div_lt_upper_bound; nia. }
  rewrite Z.mod_small; lia.
Qed.

Lemma irq_line_fits irq copy now :
  0 <= irq < 1000 ->
  0 <= (irq_rate copy (irq_elapsed now copy)).2 < 1000 ->
  ulong (tv_nsec (up_perf_convert (time copy))) < 10 ^ 9 ->
  Z.of_nat (length (irq_line irq copy now)) < IRQ_LINELEN.
Proof.
  intros Hirq Hfrac Hns. unfold irq_line.
  pose proof (irq_rate_intpart_range copy (irq_elapsed now copy)) as Hint.
  destruct (irq_rate copy (irq_elapsed now copy)) as [intpart fracpart].
  cbn [fst snd] in *.
  pose proof (irq_count_range copy) as Hcnt. unfold ULONG_MAX in Hcnt.
  assert (Hh : forall x, 0 <= ulong x < 16 ^ Z.of_nat 8)
    by (intros x; apply Z.mod_pos_bound; lia).
  assert (Hus : 0 <= ulong (tv_nsec (up_perf_convert (time copy))) / 1000 < 10 ^ Z.of_nat 6).
  { pose proof (Hh (tv_nsec (up_perf_convert (time copy)))).
    split; [apply Z.div_pos; lia |]. apply Z.div_lt_upper_bound; lia. }
  unfold IRQ_FMT, fmt_u, fmt_0u, fmt_0x, IRQ_LINELEN.
  rewrite !length_app. cbn [length]. rewrite !length_app. cbn [length].
  repeat (rewrite length_app; cbn [length]).
  pose proof (fmt_length_le " "%char 3 3 10 (uint irq) ltac:(lia)
                ltac:(unfold uint; rewrite Z.mod_small; lia) ltac:(lia)).
  pose proof (fmt_length_le "0"%char 8 8 16 (ulong (handler copy)) ltac:(lia) (Hh _) ltac:(lia)).
  pose proof (fmt_length_le "0"%char 8 8 16 (ulong (arg copy)) ltac:(lia) (Hh _) ltac:(lia)).
  pose proof (fmt_length_le " "%char 10 10 10 (irq_count copy) ltac:(lia) ltac:(lia) ltac:(lia)).
  pose proof (fmt_length_le " "%char 4 4 10 intpart ltac:(lia) ltac:(lia) ltac:(lia)).
  pose proof (fmt_length_le "0"%char 3 3 10 fracpart ltac:(lia) ltac:(lia) ltac:(lia)).
  pose proof (fmt_length_le " "%char 4 6 10 _ ltac:(lia) Hus ltac:(lia)).
  lia.
Qed.

Lemma irq_elapsed_range now copy :
  SYSTEM_TIME64 = false -> 1 <= irq_elapsed now copy < 2 ^ 32.
Proof.
  intros H32. pose proof (irq_elapsed_pos now copy). split; [done |].
  unfold irq_elapsed, clock_t in *. rewrite H32 in *.
  pose proof (Z.mod_pos_bound (now - start copy) (2 ^ 32) ltac:(lia)).
  destruct (_ =? 0); lia.
Qed.

(** X7: the scratch buffer is large enough: with a 32-bit tick counter
    every line of a table whose entries are in range has at most 49
    characters, so that [snprintf] never cuts a line. *)
Lemma lines_fit_in_range vec : forall clk,
  SYSTEM_TIME64 = false -> Forall in_range vec -> lines_fit vec clk = true.
Proof.
  induction vec as [|[irq info] rest IH]; intros clk H32 Hall; [done |].
  apply Forall_cons in Hall as [(Hirq & Hprod & Hns) Hall]. cbn [fst snd] in *.
  cbn [lines_fit clock_systime_ticks]. rewrite (IH _ H32 Hall), andb_true_r.
  apply Z.ltb_lt. unfold irq_chunk.
  destruct (count info =? 0); [done |].
  set (now := clock_t _).
  pose proof (irq_elapsed_range now info H32) as He.
  apply irq_line_fits; [done | | done].
  apply irq_rate_fracpart_range; [lia | done |].
  apply Z.div_lt_upper_bound; nia.
Qed.

End Fits.

(** ** Reads at any position *)

Section Partial.

Context `{Target}.

(** A traversal is stopped only with a full buffer. *)
Lemma irq_foreach_stopped_full vec : forall f clk ret vec' f' clk',
  irq_foreach irq_callback vec (f, clk) = (ret, vec', (f', clk')) ->
  ret <> 0 -> remaining f' = 0.
Proof.
  induction vec as [|[irq info] rest IH]; intros f clk ret vec' f' clk' Hrun Hret.
  - cbn in Hrun. injection Hrun as <- <- <- <-. done.
  - cbn [irq_foreach] in Hrun.
    pose proof (irq_callback_signal irq info f clk) as [Hsig _]. cbn zeta in Hsig.
    destruct (irq_callback irq info (f, clk)) as [[r1 info1] [f1 clk1]].
    cbn [fst snd] in Hsig.
    destruct (Z.eqb_spec r1 0) as [Hr1|Hr1].
    + destruct (irq_foreach irq_callback rest _) as [[r2 rest'] [f2 clk2]] eqn:Hrest.
      injection Hrun as <- <- <- <-. by eapply IH.
    + injection Hrun as <- <- <- <-.
      destruct (count info =? 0); [done |].
      destruct (Z.eqb_spec (remaining f1) 0); done.
Qed.

(** A traversal that is not stopped has visited every entry. *)
Lemma irq_foreach_complete vec : forall f clk vec' f' clk',
  irq_foreach irq_callback vec (f, clk) = (0, vec', (f', clk')) ->
  clk' = {| ticks := ticks clk; nsampled := nsampled clk + length vec |} /\
  vec' = imap (visited clk) vec.
Proof.
  induction vec as [|[irq info] rest IH]; intros f clk vec' f' clk' Hrun.
  - cbn in Hrun. injection Hrun as <- <- <-. destruct clk. cbn.
    by rewrite Nat.add_0_r.
  - cbn [irq_foreach] in Hrun.
    destruct (irq_callback_reset irq info f clk) as (r1 & f1 & Hcb).
    rewrite Hcb in Hrun.
    destruct (Z.eqb_spec r1 0) as [Hr1|Hr1].
    + destruct (irq_foreach irq_callback rest _) as [[r2 rest'] [f2 clk2]] eqn:Hrest.
      injection Hrun as -> <- <- <-.
      destruct (IH _ _ _ _ _ Hrest) as [-> ->].
      cbn [length ticks nsampled]. split; [f_equal; lia |].
      rewrite imap_cons. unfold visited at 2. cbn [fst snd]. rewrite Nat.add_0_r.
      f_equal. apply imap_ext. intros i r _. unfold visited. cbn.
      by rewrite Nat.add_succ_r.
    + by injection Hrun as -> <- <- <-.
Qed.

(** X1: a read at any file position delivers the bytes of the report
    from that position on, as many as the buffer holds or as are left;
    it returns their number and advances the file position by it. *)
Theorem irq_read_delivers_slice (h : heap) (w : World) (filep : file) (p : positive)
    (s0 : irq_file_s) (buflen : Z) :
  f_priv filep = Some p -> blocks h !! p = Some s0 ->
  0 <= f_pos filep -> 0 <= buflen <= SSIZE_MAX -> f_pos filep + buflen <= OFF_MAX ->
  report_fits w = true ->
  exists h' w' filep',
    let out := take (Z.to_nat buflen) (drop (Z.to_nat (f_pos filep)) (report w)) in
    irq_read h w filep buflen = Some (Z.of_nat (length out), out, h', w', filep') /\
    f_pos filep' = f_pos filep + Z.of_nat (length out) /\
    f_priv filep' = Some p /\
    Z.of_nat (length out) = Z.min buflen (Z.max 0 (Z.of_nat (length (report w)) - f_pos filep)).
Proof.
  intros Hp Hs Hpos Hlen Hoff Hfit. unfold SSIZE_MAX, OFF_MAX in *.
  destruct (irq_read_slice h w filep p s0 buflen Hp Hs Hpos ltac:(lia) Hfit)
    as (f' & w' & Hread).
  cbn zeta in Hread. unfold slice in Hread.
  pose proof (slice_length (f_pos filep) buflen (report w) Hpos ltac:(lia)) as Hl.
  unfold slice in Hl.
  unfold ssize_t, off_t in Hread. rewrite !int32_small in Hread by lia.
  eexists _, _, _. cbn zeta. split; [exact Hread |]. by cbn.
Qed.

(** X2: with a buffer that is not empty a read returns 0 exactly when the
    file position is at the end of the report or beyond; it then stores
    nothing and leaves the file position where it was. *)
Theorem irq_read_end_of_file (h : heap) (w : World) (filep : file) (p : positive)
    (s0 : irq_file_s) (buflen : Z) :
  f_priv filep = Some p -> blocks h !! p = Some s0 ->
  0 <= f_pos filep -> 0 < buflen <= SSIZE_MAX -> f_pos filep + buflen <= OFF_MAX ->
  report_fits w = true ->
  exists ret out h' w' filep',
    irq_read h w filep buflen = Some (ret, out, h', w', filep') /\
    (ret = 0 <-> Z.of_nat (length (report w)) <= f_pos filep) /\
    (ret = 0 -> out = [] /\ f_pos filep' = f_pos filep).
Proof.
  intros Hp Hs Hpos Hlen Hoff Hfit. unfold SSIZE_MAX, OFF_MAX in *.
  destruct (irq_read_slice h w filep p s0 buflen Hp Hs Hpos ltac:(lia) Hfit)
    as (f' & w' & Hread).
  cbn zeta in Hread.
  pose proof (slice_length (f_pos filep) buflen (report w) Hpos ltac:(lia)) as Hl.
  unfold ssize_t, off_t in Hread. rewrite !int32_small in Hread by lia.
  eexists _, _, _, _, _. split; [exact Hread |]. split; [lia |].
  intros H0. cbn [f_pos]. split; [| lia].
  apply length_zero_iff_nil. lia.
Qed.

(** X3: a read that returns less than the capacity of its buffer has
    visited and reset every entry of the table, each with the time of its
    visit. *)
Theorem irq_read_short_resets_all (h : heap) (w : World) (filep : file) (p : positive)
    (s0 : irq_file_s) (buflen : Z) :
  f_priv filep = Some p -> blocks h !! p = Some s0 ->
  0 <= f_pos filep -> 0 <= buflen <= SSIZE_MAX ->
  exists ret out h' w' filep',
    irq_read h w filep buflen = Some (ret, out, h', w', filep') /\
    (ret < buflen ->
     g_irqvector w' = imap (visited (g_clock w)) (g_irqvector w) /\
     nsampled (g_clock w') = (nsampled (g_clock w) + length (g_irqvector w))%nat /\
     Forall (fun r => count r.2 = 0 /\ time r.2 = 0) (g_irqvector w')).
Proof.
  intros Hp Hs Hpos Hlen. unfold SSIZE_MAX in *.
  destruct (irq_read_unfold h w filep p s0 buflen Hp Hs)
    as (ret & vec' & f' & clk' & Hrun & Hread).
  destruct (irq_read_header_slice s0 (f_pos filep) buflen Hpos ltac:(lia))
    as (_ & _ & _ & _ & _ & Hrun0).
  pose proof (irq_foreach_running _ _ _ _ _ _ _ _ Hrun0 Hrun) as (_ & Hr & Hn & Hsum & _).
  eexists _, _, _, _, _. split; [exact Hread |].
  unfold ssize_t. rewrite int32_small by lia. intros Hshort.
  destruct (Z.eq_dec ret 0) as [->|Hret].
  - destruct (irq_foreach_complete _ _ _ _ _ _ Hrun) as [-> ->].
    cbn [g_irqvector g_clock nsampled]. split; [done |]. split; [done |].
    apply Forall_forall. intros r Hin.
    apply list_elem_of_lookup in Hin as [i Hi].
    rewrite list_lookup_imap in Hi.
    destruct (g_irqvector w !! i) as [e|]; [| done].
    cbn in Hi. injection Hi as <-. by cbn.
  - pose proof (irq_foreach_stopped_full _ _ _ _ _ _ _ Hrun Hret). lia.
Qed.

End Partial.

(** ** Opening, duplicating and closing *)

Section Lifecycle.

Context `{Target}.

Lemma heap_eq (h : heap) b n s :
  b = blocks h -> n = nfree h -> s = stale h ->
  {| blocks := b; nfree := n; stale := s |} = h.
Proof. intros -> -> ->. by destruct h. Qed.

(** X4: closing a file that [irq_open] has opened gives back the heap as
    it was before the open, block for block, and clears [f_priv]; after
    that a read, a duplication or a second close of the file fails the
    assertion on [f_priv]. *)
Theorem irq_open_close_restores (h h1 : heap) (filep filep1 : file) (oflags : Z) :
  irq_open h filep oflags = (OK, h1, filep1) ->
  let closed := {| f_pos := f_pos filep; f_priv := None |} in
  irq_close h1 filep1 = Some (OK, h, closed) /\
  (forall w buflen, irq_read h w closed buflen = None) /\
  (forall newp, irq_dup h closed newp = None) /\
  irq_close h closed = None.
Proof.
  intros Hopen closed. split; [| by repeat split].
  unfold irq_open in Hopen.
  destruct (negb _ || _); [done |].
  unfold kmm_zalloc, kmm_alloc in Hopen.
  destruct (nfree h) as [|n] eqn:Hfree; [done |].
  injection Hopen as <- <-. unfold irq_close, kmm_free. cbn.
  do 3 f_equal. apply heap_eq; [| done | done].
  apply delete_insert_id, not_elem_of_dom, is_fresh.
Qed.

End Lifecycle.

(** ** What a line shows *)

Section Shown.

Context `{Target}.

(** X5: when the product count x ticks-per-second fits 64 bits, the
    window is below 2^32 ticks and the rate is below 10000 per second,
    the two parts of the rate are the rate in thousandths, rounded down:
    the integer part is the quotient and the fractional part is below
    1000; and a count of at most [ULONG_MAX] is shown as it is. *)
Theorem irq_rate_thousandths (copy : irq_info_s) (elapsed : Z) :
  0 <= count copy * TICK_PER_SEC < 2 ^ 64 ->
  1 <= elapsed < 2 ^ 32 ->
  count copy * TICK_PER_SEC / elapsed < 10000 ->
  let rate := irq_rate copy elapsed in
  rate.1 = count copy * TICK_PER_SEC / elapsed /\
  0 <= rate.2 < 1000 /\
  rate.1 * 1000 + rate.2 = count copy * TICK_PER_SEC * 1000 / elapsed /\
  (0 <= count copy <= ULONG_MAX -> irq_count copy = count copy).
Proof.
  intros Hx He Hq rate.
  pose proof (irq_rate_fracpart_range copy elapsed Hx He ltac:(lia)) as Hfrac.
  fold rate in Hfrac. subst rate. unfold irq_rate, uint64_t, uint in *.
  set (x := count copy * TICK_PER_SEC) in *.
  assert (0 <= x / elapsed) by (apply Z.div_pos; lia).
  rewrite (Z.mod_small x), (Z.mod_small (x / elapsed)) in * by lia.
  destruct (Z.leb_spec 10000 (x / elapsed)); [lia |]. cbn [fst snd] in *.
  split; [done |]. split; [done |]. split.
  - pose proof (Z.mul_div_le x elapsed ltac:(lia)).
    pose proof (Z.mod_pos_bound x elapsed ltac:(lia)) as Hm.
    rewrite (Z.mod_small (x / elapsed * elapsed)) by nia.
    replace (x - x / elapsed * elapsed) with (x mod elapsed)
      by (rewrite Z.mod_eq by lia; lia).
    rewrite (Z.mod_small (x mod elapsed)) by lia.
    rewrite (Z.mod_small (x mod elapsed * 1000)) by nia.
    assert (0 <= x mod elapsed * 1000 / elapsed < 1000).
    { split; [apply Z.div_pos; lia |]. apply Z.div_lt_upper_bound; nia. }
    rewrite (Z.mod_small (_ / _)) by lia.
    rewrite (Z.div_mod x elapsed) at 3 by lia.
    replace ((elapsed * (x / elapsed) + x mod elapsed) * 1000)
      with (x / elapsed * 1000 * elapsed + x mod elapsed * 1000) by lia.
    rewrite Z.div_add_l by lia. done.
  - intros Hc. unfold irq_count, ULONG_MAX, ulong in *.
    destruct (Z.ltb_spec (2 ^ 32 - 1) (count copy)); [lia |].
    apply Z.mod_small. lia.
Qed.

(** X6: the window is measured right across a wrap of the tick counter:
    when the entry was reset at tick [t0] and is visited at tick [t1],
    less than one period of the counter later, the window is [t1 - t0]
    ticks (1 tick when the two are equal), whatever the two values the
    counter showed. *)
Theorem irq_elapsed_across_wrap (t0 t1 : Z) (copy : irq_info_s) :
  start copy = clock_t t0 ->
  0 <= t1 - t0 < (if SYSTEM_TIME64 then 2 ^ 64 else 2 ^ 32) ->
  irq_elapsed (clock_t t1) copy = Z.max 1 (t1 - t0).
Proof.
  intros Hstart Hd. unfold irq_elapsed. rewrite Hstart. unfold clock_t.
  set (m := if SYSTEM_TIME64 then 2 ^ 64 else 2 ^ 32) in *.
  rewrite Zminus_mod_idemp_l, Zminus_mod_idemp_r, Z.mod_small by done.
  destruct (Z.eqb_spec (t1 - t0) 0); lia.
Qed.

End Shown.

(** ** The scenario on the example target *)

#[local] Existing Instance stm32.

(** C1, the claim as stated fails: the table is the same at both small
    reads, and so is the set of interrupts with a count that is not zero,
    but the second read comes a second later and renders another rate
    (1.000) than the full read (100.000). *)
Lemma reads_differ_when_time_passes :
  g_irqvector w5_once_later = g_irqvector w5_once /\
  ~ stated_equivalence h1 fp1 w5_once 94 [(w5_once, 47); (w5_once_later, 47)].
Proof.
  split; [done |].
  unfold stated_equivalence. intros Hclaim.
  destruct Hclaim as (ret & out & h' & w' & f' & Hsingle & Hmulti).
  - repeat constructor.
  - apply Z.leb_le. reflexivity.
  - apply Z.leb_le. reflexivity.
  - vm_compute in Hsingle. vm_compute in Hmulti.
    injection Hsingle as _ Hout _ _ _. subst out. discriminate Hmulti.
Qed.

Lemma read_all_full_report_witness :
  exists ret h' w' filep',
    irq_read h1 w5 fp1 94 = Some (ret, HDR_FMT ++ LINE_120, h', w', filep') /\
    read_all h1 fp1 [(w5, 47); (w5_again, 47)] = Some (HDR_FMT ++ LINE_120).
Proof.
  apply (read_all_full_report h1 fp1 1%positive zeroed (HDR_FMT ++ LINE_120) w5 94
           [(w5, 47); (w5_again, 47)]); try reflexivity.
  - unfold SSIZE_MAX. change (Z.of_nat (length (HDR_FMT ++ LINE_120))) with 94. lia.
  - unfold SSIZE_MAX. repeat constructor; cbn; lia.
  - unfold OFF_MAX. change (Z.of_nat (length (HDR_FMT ++ LINE_120))) with 94.
    change (capacity [(w5, 47); (w5_again, 47)]) with 94. lia.
Defined.

(** C2, the claim as stated fails: the first read, of the length of the
    header, resets the only entry, and the read that follows finds a count
    of zero and delivers nothing. *)
Lemma header_then_rest_loses_line :
  snapshot_120 w5 rec5 /\
  read_twice h1 w5 fp1 47 47 = Some HDR_FMT /\
  read_twice h1 w5 fp1 47 47 <> Some (HDR_FMT ++ LINE_120).
Proof.
  split; [by repeat split |].
  split; [by vm_compute |].
  vm_compute. discriminate.
Qed.

Lemma scenario_header_then_line_witness :
  (exists h' w' filep',
     irq_read h1 w5 fp1 (47 + 47) = Some (94, HDR_FMT ++ LINE_120, h', w', filep')) /\
  (exists h' w' filep',
     irq_read h1 w5 fp1 47 = Some (47, HDR_FMT, h', w', filep') /\
     g_irqvector w' = [(5, irq_reset (clock_t (ticks (g_clock w5) (nsampled (g_clock w5)))) rec5)] /\
     exists h'' w'' filep'',
       irq_read h' w5_again filep' 47 = Some (47, LINE_120, h'', w'', filep'')).
Proof.
  apply (scenario_header_then_line h1 fp1 1%positive zeroed w5 w5_again rec5 rec5_again 47);
    try reflexivity; by repeat split.
Defined.

Lemma irq_read_resets_visited_witness :
  exists ret out h' w' filep' (k : nat),
    irq_read h1 w5 fp1 47 = Some (ret, out, h', w', filep') /\
    (k <= length (g_irqvector w5))%nat /\
    g_clock w' = {| ticks := ticks (g_clock w5); nsampled := nsampled (g_clock w5) + k |} /\
    (forall (i : nat) (n : Z) (e : irq_info_s),
       (i < k)%nat -> g_irqvector w5 !! i = Some (n, e) ->
       g_irqvector w' !! i =
       Some (n, {| handler := handler e; arg := arg e;
                   start := clock_t (ticks (g_clock w5) (nsampled (g_clock w5) + i)%nat);
                   count := 0; time := 0 |})) /\
    (forall i : nat, (k <= i)%nat -> g_irqvector w' !! i = g_irqvector w5 !! i).
Proof.
  exact (proj2 (irq_read_resets_visited 5 rec5 zeroed (g_clock w5) h1 w5 fp1 1%positive
                  zeroed 47 eq_refl eq_refl)).
Defined.

(** C4, the claim as stated fails: with 2^32 interrupts in one second the
    quotient, 2^32, is far above 9999, but its conversion to
    [unsigned int] is 0 and the rate is rendered as 0.000. *)
Lemma rate_wraps_above_unsigned_int :
  9999 < count rec5_fast * TICK_PER_SEC / irq_elapsed 1100 rec5_fast /\
  irq_rate rec5_fast (irq_elapsed 1100 rec5_fast) = (0, 0) /\
  irq_rate rec5_fast (irq_elapsed 1100 rec5_fast) <> (9999, 999) /\
  irq_line 5 rec5_fast 1100 =
    text "  5 08001000 00000000 4294967295    0.000  250" ++ [newline].
Proof. repeat split; by vm_compute. Qed.

Lemma irq_rate_saturates_witness :
  irq_rate rec5_busy (irq_elapsed 1100 rec5_busy) = (9999, 999) /\
  irq_count rec5_busy = ULONG_MAX /\
  fmt_u 10 (irq_count rec5_busy) = text "4294967295".
Proof.
  destruct (irq_rate_saturates 5 1100 rec5_busy) as (Hrate & Hcount & _).
  split.
  - apply Hrate; by vm_compute.
  - apply Hcount. by vm_compute.
Defined.

Lemma irq_open_access_witness :
  (irq_open h1 fp0 3 = (Failed EACCES, h1, fp0) /\
   Nat.iter 5 (fun hf : heap * file =>
                 let r := irq_open hf.1 hf.2 3 in (r.1.2, r.2)) (h1, fp0) = (h1, fp0)) /\
  (exists p,
     blocks h1 !! p = None /\
     irq_open h1 fp0 1 =
     (OK,
      {| blocks := <[p := zeroed]> (blocks h1); nfree := pred (nfree h1); stale := stale h1 |},
      {| f_pos := f_pos fp0; f_priv := Some p |})).
Proof.
  split.
  - apply (proj1 (proj2 (irq_open_access h1 fp0 3 5))). left. by vm_compute.
  - apply (proj2 (proj2 (proj2 (irq_open_access h1 fp0 1 0)))).
    + intros [Hw|Hr]; [by apply Hw | by vm_compute in Hr].
    + by vm_compute.
Defined.


Lemma irq_read_renders_lines_witness :
  exists h' w' filep',
    irq_read h1 w5 fp1 94 = Some (94, HDR_FMT ++ LINE_120, h', w', filep').
Proof.
  exact (proj1 (irq_read_renders_lines h1 w5 fp1 1%positive zeroed 94 eq_refl eq_refl eq_refl
                  eq_refl ltac:(by vm_compute))).
Defined.

Lemma irq_read_always_resets_first_witness :
  exists ret out h' w' filep' rest',
    irq_read h1 w5 fp1 0 = Some (ret, out, h', w', filep') /\
    (nsampled (g_clock w5) < nsampled (g_clock w'))%nat /\
    g_irqvector w' =
      (5, {| handler := handler rec5; arg := arg rec5;
             start := clock_t (ticks (g_clock w5) (nsampled (g_clock w5)));
             count := 0; time := 0 |}) :: rest' /\
    (0 <= f_pos fp1 -> 0 <= 0 <= Z.max 0 (47 - f_pos fp1) ->
     ret = 0 /\ out = slice (f_pos fp1) 0 HDR_FMT /\ (0 = 0 -> out = [])).
Proof.
  exact (irq_read_always_resets_first h1 w5 fp1 1%positive zeroed 0 5 rec5 []
           eq_refl eq_refl eq_refl).
Defined.

Lemma irq_dup_independent_witness :
  exists q h2,
    irq_dup h1 fp1 fp0 = Some (OK, h2, {| f_pos := f_pos fp0; f_priv := Some q |}) /\
    q <> 1%positive /\ blocks h2 !! q = Some zeroed /\ blocks h2 !! 1%positive = Some zeroed.
Proof.
  destruct (irq_dup_independent h1 fp1 fp0 1%positive zeroed w5 47 47 eq_refl eq_refl
              ltac:(by vm_compute))
    as (q & h2 & Hdup & Hne & _ & Hq & Hp & _).
  by exists q, h2.
Defined.

(** ** Instances of the further properties *)

Lemma irq_read_delivers_slice_witness :
  exists h' w' filep',
    irq_read h1 w5 {| f_pos := 50; f_priv := Some 1%positive |} 10 =
      Some (10, text " 08001000 ", h', w', filep') /\
    f_pos filep' = 60.
Proof.
  destruct (irq_read_delivers_slice h1 w5 {| f_pos := 50; f_priv := Some 1%positive |}
              1%positive zeroed 10 eq_refl eq_refl ltac:(by vm_compute) ltac:(by vm_compute)
              ltac:(by vm_compute) eq_refl)
    as (h' & w' & filep' & Hread & Hpos & _).
  by exists h', w', filep'.
Defined.

Lemma irq_read_end_of_file_witness :
  exists ret out h' w' filep',
    irq_read h1 w5 {| f_pos := 94; f_priv := Some 1%positive |} 10 =
      Some (ret, out, h', w', filep') /\
    ret = 0.
Proof.
  destruct (irq_read_end_of_file h1 w5 {| f_pos := 94; f_priv := Some 1%positive |}
              1%positive zeroed 10 eq_refl eq_refl ltac:(by vm_compute) ltac:(by vm_compute)
              ltac:(by vm_compute) eq_refl)
    as (ret & out & h' & w' & filep' & Hread & Hiff & _).
  exists ret, out, h', w', filep'. split; [done |]. apply Hiff. by vm_compute.
Defined.

Lemma irq_read_short_resets_all_witness :
  exists ret out h' w' filep',
    irq_read h1 w5 fp1 100 = Some (ret, out, h', w', filep') /\
    (ret < 100 ->
     g_irqvector w' = imap (visited (g_clock w5)) (g_irqvector w5) /\
     nsampled (g_clock w') = (nsampled (g_clock w5) + length (g_irqvector w5))%nat /\
     Forall (fun r => count r.2 = 0 /\ time r.2 = 0) (g_irqvector w')).
Proof.
  apply (irq_read_short_resets_all h1 w5 fp1 1%positive zeroed 100); by vm_compute.
Defined.

Lemma irq_open_close_restores_witness :
  exists h' filep',
    irq_open h1 fp0 1 = (OK, h', filep') /\
    irq_close h' filep' = Some (OK, h1, {| f_pos := 0; f_priv := None |}).
Proof.
  destruct (irq_open h1 fp0 1) as [[st h'] filep'] eqn:Hopen.
  assert (st = OK) as -> by (vm_compute in Hopen; congruence).
  exists h', filep'. split; [done |].
  exact (proj1 (irq_open_close_restores h1 h' fp0 filep' 1 Hopen)).
Defined.

Lemma irq_rate_thousandths_witness :
  (irq_rate rec5 100).1 * 1000 + (irq_rate rec5 100).2 = 120000.
Proof.
  destruct (irq_rate_thousandths rec5 100) as (_ & _ & Hrate & _); by vm_compute.
Defined.

Lemma irq_elapsed_across_wrap_witness :
  irq_elapsed (clock_t (2 ^ 32 + 50)) rec5_wrap = 100.
Proof.
  exact (irq_elapsed_across_wrap (2 ^ 32 - 50) (2 ^ 32 + 50) rec5_wrap eq_refl
           ltac:(by vm_compute)).
Defined.

Lemma lines_fit_in_range_witness : lines_fit (g_irqvector w5) (g_clock w5) = true.
Proof.
  apply lines_fit_in_range; [done |]. repeat constructor; by vm_compute.
Defined.

